(** * PeerDrop: the [useWebRTC] session hook

    A shallow embedding of [hooks/useWebRTC.ts] and [types.ts]: the state the
    hook keeps (React state and refs), the data-channel message handler, the
    negotiation entry points and the chunked file sender, followed by the
    properties of the transfer protocol and of the session state machine.

    The host platform (JSON, the data channel, the peer connection, timers,
    the file reader) is modelled as far as the hook observes it: what the
    host decides (identifiers, the clock, the channel's [bufferedAmount],
    whether a negotiation step succeeds, when an event fires) is an input of
    the function that meets it.

    Contents: JavaScript strings and JSON; the types of [types.ts] and the
    host's objects; the hook's state and functions; runs of calls and
    events; then the facts, in this order: JSON, the records on the wire,
    the receiver, the session, the file sender, both peers together. *)

From Stdlib Require Import List NArith ZArith Bool Lia String Ascii.
From Stdlib.Strings Require Import Byte.
Import ListNotations.

Set Warnings "-register-all".

(** ** JavaScript strings

    A JavaScript string is a sequence of UTF-16 code units; a code unit is
    kept as its number. *)

Definition jsstring := list N.

(** An ASCII literal as a JavaScript string. *)
Definition js (s : string) : jsstring :=
  map N_of_ascii (list_ascii_of_string s).

Fixpoint jsstring_eqb (a b : jsstring) : bool :=
  match a, b with
  | [], [] => true
  | x :: a', y :: b' => N.eqb x y && jsstring_eqb a' b'
  | _, _ => false
  end.

(** ** The host's JSON

    [JSON.stringify] and [JSON.parse] of the host, over the values the hook
    exchanges.  The grammar is the one of ECMA-404. *)

Module JSON.

Local Open Scope N_scope.

(** A number is kept as the exact decimal it was written as:
    [JNum m e] is [m * 10^e].  The hook never computes with numbers, it
    only passes them on. *)
Inductive json : Type :=
| JNull
| JBool (b : bool)
| JNum (m : Z) (e : Z)
| JStr (s : jsstring)
| JArr (items : list json)
| JObj (fields : list (jsstring * json)).

(** *** Objects: own properties in insertion order *)

Fixpoint obj_get (k : jsstring) (o : list (jsstring * json)) : option json :=
  match o with
  | [] => None
  | (k', v) :: o' => if jsstring_eqb k k' then Some v else obj_get k o'
  end.

(** Defining a property that exists replaces its value in place. *)
Fixpoint obj_set (k : jsstring) (v : json) (o : list (jsstring * json))
  : list (jsstring * json) :=
  match o with
  | [] => [(k, v)]
  | (k', v') :: o' =>
      if jsstring_eqb k k' then (k', v) :: o' else (k', v') :: obj_set k v o'
  end.

(** *** Serialising *)

Definition hex_digit (d : N) : N :=
  if d <? 10 then 48 + d else 87 + d.

(** [\uXXXX], lower-case hexadecimal. *)
Definition unicode_escape (c : N) : jsstring :=
  [92; 117; hex_digit (c / 4096 mod 16); hex_digit (c / 256 mod 16);
   hex_digit (c / 16 mod 16); hex_digit (c mod 16)].

Definition is_high_surrogate (c : N) : bool := (55296 <=? c) && (c <=? 56319).
Definition is_low_surrogate (c : N) : bool := (56320 <=? c) && (c <=? 57343).

(** A code unit that is neither a surrogate nor half of a pair. *)
Definition quote_unit (c : N) : jsstring :=
  if c =? 34 then [92; 34]
  else if c =? 92 then [92; 92]
  else if c =? 8 then [92; 98]
  else if c =? 9 then [92; 116]
  else if c =? 10 then [92; 110]
  else if c =? 12 then [92; 102]
  else if c =? 13 then [92; 114]
  else if c <? 32 then unicode_escape c
  else [c].

(** QuoteJSONString without the enclosing quotes: a surrogate pair is kept,
    a lone surrogate is escaped. *)
Fixpoint quote_chars (s : jsstring) : jsstring :=
  match s with
  | [] => []
  | c :: rest =>
      if is_high_surrogate c then
        match rest with
        | d :: rest' =>
            if is_low_surrogate d then c :: d :: quote_chars rest'
            else unicode_escape c ++ quote_chars rest
        | [] => unicode_escape c
        end
      else if is_low_surrogate c then unicode_escape c ++ quote_chars rest
      else quote_unit c ++ quote_chars rest
  end.

Definition quote (s : jsstring) : jsstring := 34 :: quote_chars s ++ [34].

(** Decimal digits, most significant first. *)
Fixpoint dec_digits (fuel : nat) (n : N) : list N :=
  match fuel with
  | O => []
  | S f => if n <? 10 then [n] else dec_digits f (n / 10) ++ [n mod 10]
  end.

Definition digit_char (d : N) : N := 48 + d.

Definition N_to_string (n : N) : jsstring :=
  map digit_char (dec_digits (S (N.to_nat (N.log2 n))) n).

Definition Z_to_string (z : Z) : jsstring :=
  match z with
  | Zneg p => 45 :: N_to_string (Npos p)
  | _ => N_to_string (Z.to_N z)
  end.

(** An integer is written as the host writes it (below 1e21); any other
    decimal is written as mantissa and exponent, which denotes the same
    number (the hook serialises integers only). *)
Definition number_to_string (m e : Z) : jsstring :=
  if (e =? 0)%Z then Z_to_string m
  else Z_to_string m ++ 101 :: Z_to_string e.

Fixpoint join (sep : jsstring) (parts : list jsstring) : jsstring :=
  match parts with
  | [] => []
  | [p] => p
  | p :: ps => p ++ sep ++ join sep ps
  end.

Fixpoint stringify (v : json) : jsstring :=
  match v with
  | JNull => js "null"
  | JBool true => js "true"
  | JBool false => js "false"
  | JNum m e => number_to_string m e
  | JStr s => quote s
  | JArr items => 91 :: join [44] (map stringify items) ++ [93]
  | JObj fields =>
      123 :: join [44] (map (fun kv => quote (fst kv) ++ 58 :: stringify (snd kv))
                            fields) ++ [125]
  end.

(** *** Parsing *)

Inductive parse_result (A : Type) : Type :=
| Ok (a : A)
| SyntaxError
| OutOfFuel.
Arguments Ok {A} a.
Arguments SyntaxError {A}.
Arguments OutOfFuel {A}.

Definition is_ws (c : N) : bool :=
  (c =? 32) || (c =? 9) || (c =? 10) || (c =? 13).

Fixpoint skip_ws (s : jsstring) : jsstring :=
  match s with
  | c :: r => if is_ws c then skip_ws r else s
  | [] => []
  end.

Definition is_digit (c : N) : bool := (48 <=? c) && (c <=? 57).

Definition hex_value (c : N) : option N :=
  if is_digit c then Some (c - 48)
  else if (97 <=? c) && (c <=? 102) then Some (c - 87)
  else if (65 <=? c) && (c <=? 70) then Some (c - 55)
  else None.

Definition hex4 (a b c d : N) : option N :=
  match hex_value a, hex_value b, hex_value c, hex_value d with
  | Some x, Some y, Some z, Some w => Some (4096 * x + 256 * y + 16 * z + w)
  | _, _, _, _ => None
  end.

Definition simple_escape (e : N) : option N :=
  if e =? 34 then Some 34
  else if e =? 92 then Some 92
  else if e =? 47 then Some 47
  else if e =? 98 then Some 8
  else if e =? 102 then Some 12
  else if e =? 110 then Some 10
  else if e =? 114 then Some 13
  else if e =? 116 then Some 9
  else None.

(** The characters of a string literal after its opening quote, up to and
    including the closing quote. *)
Fixpoint parse_chars (s : jsstring) : option (jsstring * jsstring) :=
  match s with
  | [] => None
  | c :: r =>
      if c =? 34 then Some ([], r)
      else if c =? 92 then
        match r with
        | [] => None
        | e :: r' =>
            if e =? 117 then
              match r' with
              | h1 :: h2 :: h3 :: h4 :: r'' =>
                  match hex4 h1 h2 h3 h4, parse_chars r'' with
                  | Some u, Some (str, rest) => Some (u :: str, rest)
                  | _, _ => None
                  end
              | _ => None
              end
            else
              match simple_escape e, parse_chars r' with
              | Some u, Some (str, rest) => Some (u :: str, rest)
              | _, _ => None
              end
        end
      else if c <? 32 then None
      else
        match parse_chars r with
        | Some (str, rest) => Some (c :: str, rest)
        | None => None
        end
  end.

(** The longest prefix of digits, as digit values. *)
Fixpoint span_digits (s : jsstring) : list N * jsstring :=
  match s with
  | c :: r =>
      if is_digit c then let (ds, rest) := span_digits r in (c - 48 :: ds, rest)
      else ([], s)
  | [] => ([], [])
  end.

Definition digits_value (ds : list N) : N :=
  fold_left (fun v d => 10 * v + d) ds 0.

(** [int]: a single zero, or a non-zero digit followed by digits. *)
Definition parse_int (s : jsstring) : option (list N * jsstring) :=
  match s with
  | c :: r =>
      if c =? 48 then Some ([0], r)
      else if is_digit c then Some (span_digits s)
      else None
  | [] => None
  end.

(** [frac]: nothing, or a point followed by at least one digit. *)
Definition parse_frac (s : jsstring) : option (list N * jsstring) :=
  match s with
  | c :: r =>
      if c =? 46 then
        match span_digits r with
        | ([], _) => None
        | (ds, rest) => Some (ds, rest)
        end
      else Some ([], s)
  | [] => Some ([], [])
  end.

(** [exp]: nothing, or [e]/[E], an optional sign and at least one digit. *)
Definition parse_exp (s : jsstring) : option (Z * jsstring) :=
  match s with
  | c :: r =>
      if (c =? 101) || (c =? 69) then
        let '(neg, r1) :=
          match r with
          | sg :: r' =>
              if sg =? 45 then (true, r')
              else if sg =? 43 then (false, r')
              else (false, r)
          | [] => (false, r)
          end in
        match span_digits r1 with
        | ([], _) => None
        | (ds, rest) =>
            let x := Z.of_N (digits_value ds) in
            Some (if neg then (- x)%Z else x, rest)
        end
      else Some (0%Z, s)
  | [] => Some (0%Z, [])
  end.

Definition parse_number (s : jsstring) : option (json * jsstring) :=
  let '(neg, s1) :=
    match s with
    | c :: r => if c =? 45 then (true, r) else (false, s)
    | [] => (false, s)
    end in
  match parse_int s1 with
  | None => None
  | Some (ids, s2) =>
      match parse_frac s2 with
      | None => None
      | Some (fds, s3) =>
          match parse_exp s3 with
          | None => None
          | Some (x, s4) =>
              let m := Z.of_N (digits_value (ids ++ fds)) in
              Some (JNum (if neg then (- m)%Z else m)
                         (x - Z.of_nat (List.length fds))%Z, s4)
          end
      end
  end.

(** [strip_prefix p s] is what follows [p] in [s]. *)
Fixpoint strip_prefix (p s : jsstring) : option jsstring :=
  match p, s with
  | [], _ => Some s
  | x :: p', y :: s' => if x =? y then strip_prefix p' s' else None
  | _ :: _, [] => None
  end.

Definition parse_literal (s : jsstring) : option (json * jsstring) :=
  match strip_prefix (js "true") s with
  | Some r => Some (JBool true, r)
  | None =>
      match strip_prefix (js "false") s with
      | Some r => Some (JBool false, r)
      | None =>
          match strip_prefix (js "null") s with
          | Some r => Some (JNull, r)
          | None => None
          end
      end
  end.

Definition of_option {A} (o : option A) : parse_result A :=
  match o with
  | Some a => Ok a
  | None => SyntaxError
  end.

(** Recursive descent; the fuel bounds the number of nested calls.
    [parse_elements] reads array elements after [[] or a comma,
    [parse_members] reads object members after [{] or a comma. *)
Fixpoint parse_value (fuel : nat) (s : jsstring) : parse_result (json * jsstring) :=
  match fuel with
  | O => OutOfFuel
  | S f =>
      match skip_ws s with
      | [] => SyntaxError
      | c :: r =>
          if c =? 123 then
            match skip_ws r with
            | d :: r' => if d =? 125 then Ok (JObj [], r') else parse_members f r []
            | [] => SyntaxError
            end
          else if c =? 91 then
            match skip_ws r with
            | d :: r' => if d =? 93 then Ok (JArr [], r') else parse_elements f r []
            | [] => SyntaxError
            end
          else if c =? 34 then
            match parse_chars r with
            | Some (str, rest) => Ok (JStr str, rest)
            | None => SyntaxError
            end
          else if (c =? 45) || is_digit c then of_option (parse_number (c :: r))
          else of_option (parse_literal (c :: r))
      end
  end

with parse_elements (fuel : nat) (s : jsstring) (acc : list json)
  : parse_result (json * jsstring) :=
  match fuel with
  | O => OutOfFuel
  | S f =>
      match parse_value f s with
      | Ok (v, r) =>
          match skip_ws r with
          | d :: r' =>
              if d =? 44 then parse_elements f r' (acc ++ [v])
              else if d =? 93 then Ok (JArr (acc ++ [v]), r')
              else SyntaxError
          | [] => SyntaxError
          end
      | SyntaxError => SyntaxError
      | OutOfFuel => OutOfFuel
      end
  end

with parse_members (fuel : nat) (s : jsstring) (acc : list (jsstring * json))
  : parse_result (json * jsstring) :=
  match fuel with
  | O => OutOfFuel
  | S f =>
      match skip_ws s with
      | q :: r =>
          if q =? 34 then
            match parse_chars r with
            | Some (k, r1) =>
                match skip_ws r1 with
                | col :: r2 =>
                    if col =? 58 then
                      match parse_value f r2 with
                      | Ok (v, r3) =>
                          match skip_ws r3 with
                          | d :: r4 =>
                              if d =? 44 then parse_members f r4 (obj_set k v acc)
                              else if d =? 125 then Ok (JObj (obj_set k v acc), r4)
                              else SyntaxError
                          | [] => SyntaxError
                          end
                      | SyntaxError => SyntaxError
                      | OutOfFuel => OutOfFuel
                      end
                    else SyntaxError
                | [] => SyntaxError
                end
            | None => SyntaxError
            end
          else SyntaxError
      | [] => SyntaxError
      end
  end.

Definition parse_fuel (s : jsstring) : nat := S (2 * List.length s).

(** [JSON.parse]: [None] stands for the SyntaxError the host throws. *)
Definition parse (s : jsstring) : option json :=
  match parse_value (parse_fuel s) s with
  | Ok (v, rest) =>
      match skip_ws rest with
      | [] => Some v
      | _ :: _ => None
      end
  | SyntaxError => None
  | OutOfFuel => None
  end.

(** What one more character in front adds to a string-literal reading. *)
Definition cons_char (c : N) (r : option (jsstring * jsstring))
  : option (jsstring * jsstring) :=
  match r with
  | Some (str, rest) => Some (c :: str, rest)
  | None => None
  end.

(** What may follow a number without being read as part of it. *)
Definition number_end (rest : jsstring) : bool :=
  match rest with
  | [] => true
  | c :: _ => negb (is_digit c || (c =? 46) || (c =? 101) || (c =? 69))
  end.

End JSON.

Import JSON.

Local Open Scope N_scope.

(** ** types.ts and the values of the host *)

Inductive ConnectionState : Type :=
| disconnected | connecting | connected | failed.

(** A JavaScript value held by the hook: [undefined] or a JSON value. *)
Inductive jsval : Type :=
| Undefined
| Val (j : json).

(** [v[k]] for the property names the hook reads ([type], [payload]), which
    no array, string, number or boolean defines.  [None] is the TypeError
    of reading a property of [null] or [undefined]. *)
Definition get (v : jsval) (k : jsstring) : option jsval :=
  match v with
  | Undefined => None
  | Val JNull => None
  | Val (JObj o) =>
      Some (match obj_get k o with
            | Some x => Val x
            | None => Undefined
            end)
  | Val _ => Some Undefined
  end.

(** [v === lit] for a string literal [lit]. *)
Definition is_string (v : jsval) (lit : jsstring) : bool :=
  match v with
  | Val (JStr s) => jsstring_eqb s lit
  | _ => false
  end.

(** Whether converting a parsed value to a string throws a TypeError.  An
    object converts through [Object.prototype.toString] unless it has an own
    property [toString]: a parsed value is never callable, and neither it
    nor [valueOf] then yields a primitive.  An array converts through
    [join], which converts every element other than [null]; every other
    value has a string form. *)
Fixpoint ToString_throws (v : json) : bool :=
  match v with
  | JObj fields =>
      match obj_get (js "toString") fields with
      | Some _ => true
      | None => false
      end
  | JArr items => existsb ToString_throws items
  | _ => false
  end.

(** The same for a dictionary member that is a string, such as the [type]
    option of [Blob]: [undefined] stands for the default and is not
    converted. *)
Definition DOMString_throws (v : jsval) : bool :=
  match v with
  | Undefined => false
  | Val j => ToString_throws j
  end.

(** The own enumerable properties copied by [{...v}]; the hook spreads
    objects only. *)
Definition spread (v : json) : list (jsstring * json) :=
  match v with
  | JObj o => o
  | _ => []
  end.

Definition bytes := list byte.

Definition byteLength (b : bytes) : N := N.of_nat (List.length b).

(** [buffer.slice(a, b)] for [a <= b]. *)
Definition slice (buffer : bytes) (a b : N) : bytes :=
  firstn (N.to_nat (b - a)) (skipn (N.to_nat a) buffer).

(** A [File] of the host: its name, its type and its content. *)
Record File : Type := {
  file_name : jsstring;
  file_type : jsstring;
  file_bytes : bytes;
}.

Definition file_size (f : File) : N := byteLength (file_bytes f).

(** A [Blob]: the concatenation of its parts and the [type] option it was
    built with (the host's normalisation of that option is not modelled). *)
Record Blob : Type := {
  blob_bytes : bytes;
  blob_type : jsval;
}.

Definition blob_of_file (f : File) : Blob :=
  {| blob_bytes := file_bytes f; blob_type := Val (JStr (file_type f)) |}.

Inductive Sender : Type := me | peer.

(** [FileMessage]; [fileInfo] is whatever the file-meta record carried. *)
Record FileMessage : Type := {
  fm_id : jsstring;
  fm_sender : Sender;
  fm_timestamp : N;
  fm_fileInfo : jsval;
  fm_downloadUrl : jsstring;
}.

(** An entry of [receivedMessages].  A text entry is the object the hook
    built, either from a literal or by spreading a received record. *)
Inductive ReceivedMessage : Type :=
| TextEntry (o : list (jsstring * json))
| FileEntry (m : FileMessage).

Record FileInfo : Type := {
  fi_name : jsstring;
  fi_size : N;
  fi_type : jsstring;
}.

(** A [FileInfo] as the object [{ name, size, type }]. *)
Definition FileInfo_object (i : FileInfo) : json :=
  JObj [(js "name", JStr (fi_name i));
        (js "size", JNum (Z.of_N (fi_size i)) 0);
        (js "type", JStr (fi_type i))].

(** [{ name: file.name, size: file.size, type: file.type }]. *)
Definition fileInfo_of (f : File) : FileInfo :=
  {| fi_name := file_name f; fi_size := file_size f; fi_type := file_type f |}.

Definition FileMetaMessage (payload : FileInfo) : json :=
  JObj [(js "type", JStr (js "file-meta"));
        (js "payload", FileInfo_object payload)].

Definition FileEndMessage : json :=
  JObj [(js "type", JStr (js "file-end"))].

(** What one call of a handler obtains from [crypto.randomUUID()],
    [Date.now()] and [URL.createObjectURL()]. *)
Record Env : Type := {
  randomUUID : jsstring;
  now : N;
  createObjectURL : jsstring;
}.

(** *** The data channel and the peer connection *)

Inductive Frame : Type :=
| FText (s : jsstring)
| FBinary (b : bytes).

Inductive ReadyState : Type :=
| rs_connecting | rs_open | rs_closing | rs_closed.

(** The closure [sendChunk] of one [sendFile] call: the file, its buffer
    (the content of the file) and the captured [offset]. *)
Record SendJob : Type := {
  job_file : File;
  job_offset : N;
}.

(** An [RTCDataChannel], as far as the hook uses it.  [sent] is what
    [send] has been given, oldest first. *)
Record RTCDataChannel : Type := {
  readyState : ReadyState;
  bufferedAmountLowThreshold : N;
  onbufferedamountlow : option SendJob;
  sent : list Frame;
}.

Record SessionDescription : Type := {
  sd_type : jsstring;
  sd_sdp : jsstring;
}.

Record RTCPeerConnection : Type := {
  localDescription : option SessionDescription;
  remoteDescription : option json;
}.

(** How the host settles the promises one negotiation call awaits;
    [None] and [false] are rejections. *)
Record Negotiation : Type := {
  host_createOffer : option SessionDescription;
  host_createAnswer : option SessionDescription;
  host_setLocalDescription : bool;
  host_setRemoteDescription : json -> bool;
}.

(** ** The state of [useWebRTC] *)

Record FileReceiver : Type := {
  info : jsval;
  chunks : list bytes;
}.

Record Hook : Type := {
  (* useState *)
  connectionState : ConnectionState;
  receivedMessages : list ReceivedMessage;
  offerSdp : option jsstring;
  answerSdp : option jsstring;
  errorMessage : option jsstring;
  (* useRef *)
  pc : option RTCPeerConnection;
  dc : option RTCDataChannel;
  fileReceiver : option FileReceiver;
  (* the host: object URLs handed out, [FileReader]s still loading,
     [setTimeout] callbacks not yet run *)
  objectURLs : list (jsstring * Blob);
  readers : list File;
  timers : list SendJob;
}.

Definition setConnectionState (v : ConnectionState) (h : Hook) : Hook :=
  {| connectionState := v; receivedMessages := receivedMessages h;
     offerSdp := offerSdp h; answerSdp := answerSdp h;
     errorMessage := errorMessage h; pc := pc h; dc := dc h;
     fileReceiver := fileReceiver h; objectURLs := objectURLs h;
     readers := readers h; timers := timers h |}.

(** [setReceivedMessages(prev => f(prev))]. *)
Definition setReceivedMessages
  (f : list ReceivedMessage -> list ReceivedMessage) (h : Hook) : Hook :=
  {| connectionState := connectionState h;
     receivedMessages := f (receivedMessages h);
     offerSdp := offerSdp h; answerSdp := answerSdp h;
     errorMessage := errorMessage h; pc := pc h; dc := dc h;
     fileReceiver := fileReceiver h; objectURLs := objectURLs h;
     readers := readers h; timers := timers h |}.

Definition setOfferSdp (v : option jsstring) (h : Hook) : Hook :=
  {| connectionState := connectionState h;
     receivedMessages := receivedMessages h;
     offerSdp := v; answerSdp := answerSdp h;
     errorMessage := errorMessage h; pc := pc h; dc := dc h;
     fileReceiver := fileReceiver h; objectURLs := objectURLs h;
     readers := readers h; timers := timers h |}.

Definition setAnswerSdp (v : option jsstring) (h : Hook) : Hook :=
  {| connectionState := connectionState h;
     receivedMessages := receivedMessages h;
     offerSdp := offerSdp h; answerSdp := v;
     errorMessage := errorMessage h; pc := pc h; dc := dc h;
     fileReceiver := fileReceiver h; objectURLs := objectURLs h;
     readers := readers h; timers := timers h |}.

Definition setErrorMessage (v : option jsstring) (h : Hook) : Hook :=
  {| connectionState := connectionState h;
     receivedMessages := receivedMessages h;
     offerSdp := offerSdp h; answerSdp := answerSdp h;
     errorMessage := v; pc := pc h; dc := dc h;
     fileReceiver := fileReceiver h; objectURLs := objectURLs h;
     readers := readers h; timers := timers h |}.

(** [pc.current = v], [dc.current = v], [fileReceiver.current = v]. *)
Definition set_pc (v : option RTCPeerConnection) (h : Hook) : Hook :=
  {| connectionState := connectionState h;
     receivedMessages := receivedMessages h;
     offerSdp := offerSdp h; answerSdp := answerSdp h;
     errorMessage := errorMessage h; pc := v; dc := dc h;
     fileReceiver := fileReceiver h; objectURLs := objectURLs h;
     readers := readers h; timers := timers h |}.

Definition set_dc (v : option RTCDataChannel) (h : Hook) : Hook :=
  {| connectionState := connectionState h;
     receivedMessages := receivedMessages h;
     offerSdp := offerSdp h; answerSdp := answerSdp h;
     errorMessage := errorMessage h; pc := pc h; dc := v;
     fileReceiver := fileReceiver h; objectURLs := objectURLs h;
     readers := readers h; timers := timers h |}.

Definition set_fileReceiver (v : option FileReceiver) (h : Hook) : Hook :=
  {| connectionState := connectionState h;
     receivedMessages := receivedMessages h;
     offerSdp := offerSdp h; answerSdp := answerSdp h;
     errorMessage := errorMessage h; pc := pc h; dc := dc h;
     fileReceiver := v; objectURLs := objectURLs h;
     readers := readers h; timers := timers h |}.

Definition set_objectURLs (v : list (jsstring * Blob)) (h : Hook) : Hook :=
  {| connectionState := connectionState h;
     receivedMessages := receivedMessages h;
     offerSdp := offerSdp h; answerSdp := answerSdp h;
     errorMessage := errorMessage h; pc := pc h; dc := dc h;
     fileReceiver := fileReceiver h; objectURLs := v;
     readers := readers h; timers := timers h |}.

Definition set_readers (v : list File) (h : Hook) : Hook :=
  {| connectionState := connectionState h;
     receivedMessages := receivedMessages h;
     offerSdp := offerSdp h; answerSdp := answerSdp h;
     errorMessage := errorMessage h; pc := pc h; dc := dc h;
     fileReceiver := fileReceiver h; objectURLs := objectURLs h;
     readers := v; timers := timers h |}.

Definition set_timers (v : list SendJob) (h : Hook) : Hook :=
  {| connectionState := connectionState h;
     receivedMessages := receivedMessages h;
     offerSdp := offerSdp h; answerSdp := answerSdp h;
     errorMessage := errorMessage h; pc := pc h; dc := dc h;
     fileReceiver := fileReceiver h; objectURLs := objectURLs h;
     readers := readers h; timers := v |}.

(** The hook as first rendered. *)
Definition initial : Hook :=
  {| connectionState := disconnected; receivedMessages := [];
     offerSdp := None; answerSdp := None; errorMessage := None;
     pc := None; dc := None; fileReceiver := None;
     objectURLs := []; readers := []; timers := [] |}.

(** How a handler ends: it returns, or an exception leaves it; either way
    with the state it reached. *)
Inductive completion : Type :=
| Normal (h : Hook)
| Throw (h : Hook).

Definition CHUNK_SIZE : N := 16384.

(** ** The hook's functions *)

Definition resetState (h : Hook) : Hook :=
  {| connectionState := disconnected; receivedMessages := [];
     offerSdp := None; answerSdp := None; errorMessage := None;
     pc := None; dc := None; fileReceiver := None;
     objectURLs := objectURLs h; readers := readers h; timers := timers h |}.

(** The literal of the [catch] branch. *)
Definition fallback_text (e : Env) (data : jsstring) : list (jsstring * json) :=
  [(js "type", JStr (js "text"));
   (js "id", JStr (randomUUID e));
   (js "content", JStr data);
   (js "sender", JStr (js "peer"));
   (js "timestamp", JNum (Z.of_N (now e)) 0)].

(** The body of the [try] of [handleDataChannelMessage]. *)
Definition handle_string (e : Env) (data : jsstring) (h : Hook) : completion :=
  match JSON.parse data with
  | None => Throw h
  | Some message =>
      match get (Val message) (js "type") with
      | None => Throw h
      | Some type =>
          if is_string type (js "file-meta") then
            match get (Val message) (js "payload") with
            | None => Throw h
            | Some payload =>
                Normal (set_fileReceiver
                          (Some {| info := payload; chunks := [] |}) h)
            end
          else
            match is_string type (js "file-end"), fileReceiver h with
            | true, Some r =>
                match get (info r) (js "type") with
                | None => Throw h
                | Some blob_ty =>
                    if DOMString_throws blob_ty then Throw h else
                    let fileBlob :=
                      {| blob_bytes := List.concat (chunks r);
                         blob_type := blob_ty |} in
                    let downloadUrl := createObjectURL e in
                    let fileMessage :=
                      {| fm_id := randomUUID e; fm_sender := peer;
                         fm_timestamp := now e; fm_fileInfo := info r;
                         fm_downloadUrl := downloadUrl |} in
                    Normal
                      (set_fileReceiver None
                         (setReceivedMessages
                            (fun prev => prev ++ [FileEntry fileMessage])
                            (set_objectURLs
                               (objectURLs h ++ [(downloadUrl, fileBlob)]) h)))
                end
            | _, _ =>
                if is_string type (js "text") then
                  let textMessage :=
                    obj_set (js "sender") (JStr (js "peer")) (spread message) in
                  Normal (setReceivedMessages
                            (fun prev => prev ++ [TextEntry textMessage]) h)
                else Normal h
            end
      end
  end.

(** [event.data] of a channel message. *)
Inductive MessageData : Type :=
| DataString (s : jsstring)
| DataArrayBuffer (b : bytes)
| DataOther.

Definition handleDataChannelMessage (e : Env) (data : MessageData) (h : Hook)
  : completion :=
  match data with
  | DataString s =>
      match handle_string e s h with
      | Normal h' => Normal h'
      | Throw h' =>
          Normal (setReceivedMessages
                    (fun prev => prev ++ [TextEntry (fallback_text e s)]) h')
      end
  | DataArrayBuffer b =>
      match fileReceiver h with
      | Some r =>
          Normal (set_fileReceiver
                    (Some {| info := info r; chunks := chunks r ++ [b] |}) h)
      | None => Normal h
      end
  | DataOther => Normal h
  end.

Definition setupDataChannel (dataChannel : RTCDataChannel) (h : Hook) : Hook :=
  set_dc (Some dataChannel) h.

(** The handlers [setupDataChannel] installs. *)
Definition channel_onopen (h : Hook) : Hook := setConnectionState connected h.
Definition channel_onclose (h : Hook) : Hook := resetState h.

Definition createPeerConnection (h : Hook) : Hook :=
  set_pc (Some {| localDescription := None; remoteDescription := None |}) h.

(** [onicecandidate] of a connection, for the event without candidate. *)
Definition onicecandidate (peerConnection : RTCPeerConnection)
  (candidate : bool) (h : Hook) : Hook :=
  if candidate then h
  else
    match localDescription peerConnection with
    | Some d =>
        let sdp := stringify (JObj [(js "type", JStr (sd_type d));
                                    (js "sdp", JStr (sd_sdp d))]) in
        if jsstring_eqb (sd_type d) (js "offer")
        then setOfferSdp (Some sdp) h
        else setAnswerSdp (Some sdp) h
    | None => setAnswerSdp (Some (stringify JNull)) h
    end.

Definition connection_failed_message : jsstring :=
  js "Connection failed. This could be due to a network issue or firewall.".

(** [onconnectionstatechange]; [is_failed] tells whether the connection's
    state is ['failed']. *)
Definition onconnectionstatechange (is_failed : bool) (h : Hook) : Hook :=
  if is_failed
  then setConnectionState failed
         (setErrorMessage (Some connection_failed_message) h)
  else h.

Definition ondatachannel (channel : RTCDataChannel) (h : Hook) : Hook :=
  setupDataChannel channel h.

(** The channel [pc.createDataChannel('sendChannel')] returns. *)
Definition new_channel : RTCDataChannel :=
  {| readyState := rs_connecting; bufferedAmountLowThreshold := 0;
     onbufferedamountlow := None; sent := [] |}.

Definition set_localDescription (d : SessionDescription) (h : Hook) : Hook :=
  match pc h with
  | Some p =>
      set_pc (Some {| localDescription := Some d;
                      remoteDescription := remoteDescription p |}) h
  | None => h
  end.

Definition set_remoteDescription (d : json) (h : Hook) : Hook :=
  match pc h with
  | Some p =>
      set_pc (Some {| localDescription := localDescription p;
                      remoteDescription := Some d |}) h
  | None => h
  end.

(** The awaited calls of one entry point are taken in one step. *)
Definition createOffer (n : Negotiation) (h : Hook) : completion :=
  let h := resetState h in
  let h := createPeerConnection h in
  let h := setupDataChannel new_channel h in
  match host_createOffer n with
  | None => Throw h
  | Some offer =>
      if host_setLocalDescription n
      then Normal (setConnectionState connecting (set_localDescription offer h))
      else Throw h
  end.

Definition invalid_offer_message : jsstring :=
  js "Invalid session offer. Please copy the entire offer text and try again.".

Definition invalid_answer_message : jsstring :=
  js "Invalid session answer. Please copy the entire answer text and try again.".

(** The body of the [try] of [createAnswer]. *)
Definition createAnswer_try (n : Negotiation) (remoteOfferSdp : jsstring)
  (h : Hook) : completion :=
  match JSON.parse remoteOfferSdp with
  | None => Throw h
  | Some offer =>
      if host_setRemoteDescription n offer then
        let h := set_remoteDescription offer h in
        match host_createAnswer n with
        | None => Throw h
        | Some answer =>
            if host_setLocalDescription n
            then Normal (setConnectionState connecting
                           (set_localDescription answer h))
            else Throw h
        end
      else Throw h
  end.

Definition createAnswer (n : Negotiation) (remoteOfferSdp : jsstring)
  (h : Hook) : completion :=
  let h :=
    match pc h with
    | None => createPeerConnection (resetState h)
    | Some _ => h
    end in
  match createAnswer_try n remoteOfferSdp h with
  | Normal h' => Normal h'
  | Throw h' =>
      Normal (setConnectionState failed
                (setErrorMessage (Some invalid_offer_message) h'))
  end.

(** The body of the [try] of [setRemoteAnswer]. *)
Definition setRemoteAnswer_try (n : Negotiation) (remoteAnswerSdp : jsstring)
  (h : Hook) : completion :=
  match JSON.parse remoteAnswerSdp with
  | None => Throw h
  | Some answer =>
      if host_setRemoteDescription n answer
      then Normal (set_remoteDescription answer h)
      else Throw h
  end.

Definition setRemoteAnswer (n : Negotiation) (remoteAnswerSdp : jsstring)
  (h : Hook) : completion :=
  match pc h with
  | None => Normal h
  | Some _ =>
      match setRemoteAnswer_try n remoteAnswerSdp h with
      | Normal h' => Normal h'
      | Throw h' =>
          Normal (setConnectionState failed
                    (setErrorMessage (Some invalid_answer_message) h'))
      end
  end.

(** [channel.send(frame)]: [None] is the InvalidStateError of a channel
    that is not open. *)
Definition send (frame : Frame) (ch : RTCDataChannel) : option RTCDataChannel :=
  match readyState ch with
  | rs_open =>
      Some {| readyState := readyState ch;
              bufferedAmountLowThreshold := bufferedAmountLowThreshold ch;
              onbufferedamountlow := onbufferedamountlow ch;
              sent := sent ch ++ [frame] |}
  | _ => None
  end.

Definition set_onbufferedamountlow (v : option SendJob) (ch : RTCDataChannel)
  : RTCDataChannel :=
  {| readyState := readyState ch;
     bufferedAmountLowThreshold := bufferedAmountLowThreshold ch;
     onbufferedamountlow := v;
     sent := sent ch |}.

Definition is_open (ch : RTCDataChannel) : bool :=
  match readyState ch with
  | rs_open => true
  | _ => false
  end.

Definition sendText (e : Env) (text : jsstring) (h : Hook) : completion :=
  match dc h with
  | Some ch =>
      if is_open ch then
        let message :=
          [(js "type", JStr (js "text"));
           (js "id", JStr (randomUUID e));
           (js "content", JStr text);
           (js "timestamp", JNum (Z.of_N (now e)) 0)] in
        match send (FText (stringify (JObj message))) ch with
        | None => Throw h
        | Some ch' =>
            Normal (setReceivedMessages
                      (fun prev => prev ++
                         [TextEntry (obj_set (js "sender") (JStr (js "me")) message)])
                      (set_dc (Some ch') h))
        end
      else Normal h
  | None => Normal h
  end.

(** [sendChunk] of the transfer [job]; [bufferedAmount] is what the channel
    reports when the call reads it. *)
Definition sendChunk (e : Env) (bufferedAmount : N) (job : SendJob) (h : Hook)
  : completion :=
  let file := job_file job in
  let buffer := file_bytes file in
  let offset := job_offset job in
  if byteLength buffer <=? offset then
    match dc h with
    | None => Throw h
    | Some ch =>
        match send (FText (stringify FileEndMessage)) ch with
        | None => Throw h
        | Some ch' =>
            let downloadUrl := createObjectURL e in
            Normal
              (setReceivedMessages
                 (fun prev => prev ++
                    [FileEntry {| fm_id := randomUUID e; fm_sender := me;
                                  fm_timestamp := now e;
                                  fm_fileInfo :=
                                    Val (FileInfo_object (fileInfo_of file));
                                  fm_downloadUrl := downloadUrl |}])
                 (set_objectURLs
                    (objectURLs h ++ [(downloadUrl, blob_of_file file)])
                    (set_dc (Some ch') h)))
        end
    end
  else
    match dc h with
    | None => Throw h
    | Some ch =>
        if bufferedAmountLowThreshold ch <? bufferedAmount then
          Normal (set_dc (Some (set_onbufferedamountlow (Some job) ch)) h)
        else
          let chunk := slice buffer offset (offset + CHUNK_SIZE) in
          match send (FBinary chunk) ch with
          | None => Throw h
          | Some ch' =>
              Normal (set_timers
                        (timers h ++
                           [{| job_file := file;
                               job_offset := offset + byteLength chunk |}])
                        (set_dc (Some ch') h))
          end
    end.

Definition sendFile (file : File) (h : Hook) : completion :=
  match dc h with
  | Some ch =>
      if is_open ch then
        let fileMetaMessage := FileMetaMessage (fileInfo_of file) in
        match send (FText (stringify fileMetaMessage)) ch with
        | None => Throw h
        | Some ch' =>
            Normal (set_readers (readers h ++ [file]) (set_dc (Some ch') h))
        end
      else Normal h
  | None => Normal h
  end.

(** [reader.onload]: the oldest pending read completes. *)
Definition reader_onload (e : Env) (bufferedAmount : N) (h : Hook) : completion :=
  match readers h with
  | [] => Normal h
  | file :: rest =>
      sendChunk e bufferedAmount {| job_file := file; job_offset := 0 |}
        (set_readers rest h)
  end.

(** The oldest [setTimeout(sendChunk, 0)] callback runs. *)
Definition timeout (e : Env) (bufferedAmount : N) (h : Hook) : completion :=
  match timers h with
  | [] => Normal h
  | job :: rest => sendChunk e bufferedAmount job (set_timers rest h)
  end.

(** The channel fires [bufferedamountlow]: the registered handler, if any,
    clears the slot and calls [sendChunk]. *)
Definition bufferedamountlow (e : Env) (bufferedAmount : N) (h : Hook)
  : completion :=
  match dc h with
  | Some ch =>
      match onbufferedamountlow ch with
      | Some job =>
          sendChunk e bufferedAmount job
            (set_dc (Some (set_onbufferedamountlow None ch)) h)
      | None => Normal h
      end
  | None => Normal h
  end.

(** ** Runs *)

(** Messages delivered one after the other, each with what its handler
    call obtains from the host; an exception that leaves the handler ends
    the run. *)
Fixpoint receive (msgs : list (Env * MessageData)) (h : Hook) : completion :=
  match msgs with
  | [] => Normal h
  | (e, d) :: rest =>
      match handleDataChannelMessage e d h with
      | Normal h' => receive rest h'
      | Throw h' => Throw h'
      end
  end.

(** What the UI calls and what the host fires. *)
Inductive Action : Type :=
| call_createOffer (n : Negotiation)
| call_createAnswer (n : Negotiation) (remoteOfferSdp : jsstring)
| call_setRemoteAnswer (n : Negotiation) (remoteAnswerSdp : jsstring)
| call_sendText (e : Env) (text : jsstring)
| call_sendFile (file : File)
| call_resetConnection
| ev_open
| ev_close
| ev_message (e : Env) (data : MessageData)
| ev_connectionstatechange (is_failed : bool)
| ev_datachannel (channel : RTCDataChannel)
| ev_icecandidate (peerConnection : RTCPeerConnection) (candidate : bool)
| ev_load (e : Env) (bufferedAmount : N)
| ev_timeout (e : Env) (bufferedAmount : N)
| ev_bufferedamountlow (e : Env) (bufferedAmount : N).

(** The host opens the channel before it fires [open]. *)
Definition host_opens (h : Hook) : Hook :=
  match dc h with
  | Some ch =>
      set_dc (Some {| readyState := rs_open;
                      bufferedAmountLowThreshold := bufferedAmountLowThreshold ch;
                      onbufferedamountlow := onbufferedamountlow ch;
                      sent := sent ch |}) h
  | None => h
  end.

Definition perform (a : Action) (h : Hook) : completion :=
  match a with
  | call_createOffer n => createOffer n h
  | call_createAnswer n blob => createAnswer n blob h
  | call_setRemoteAnswer n blob => setRemoteAnswer n blob h
  | call_sendText e text => sendText e text h
  | call_sendFile file => sendFile file h
  | call_resetConnection => Normal (resetState h)
  | ev_open => Normal (channel_onopen (host_opens h))
  | ev_close => Normal (channel_onclose h)
  | ev_message e data => handleDataChannelMessage e data h
  | ev_connectionstatechange is_failed =>
      Normal (onconnectionstatechange is_failed h)
  | ev_datachannel channel => Normal (ondatachannel channel h)
  | ev_icecandidate peerConnection candidate =>
      Normal (onicecandidate peerConnection candidate h)
  | ev_load e b => reader_onload e b h
  | ev_timeout e b => timeout e b h
  | ev_bufferedamountlow e b => bufferedamountlow e b h
  end.

(** The state a call or handler leaves behind, however it ended. *)
Definition state_of (c : completion) : Hook :=
  match c with
  | Normal h => h
  | Throw h => h
  end.

Fixpoint run (actions : list Action) (h : Hook) : Hook :=
  match actions with
  | [] => h
  | a :: rest => run rest (state_of (perform a h))
  end.

(** The next continuation of the transfer in flight: the pending read,
    else the pending [setTimeout] callback, else the drain signal. *)
Definition pump_step (e : Env) (bufferedAmount : N) (h : Hook) : completion :=
  match readers h, timers h with
  | _ :: _, _ => reader_onload e bufferedAmount h
  | [], _ :: _ => timeout e bufferedAmount h
  | [], [] => bufferedamountlow e bufferedAmount h
  end.

(** One continuation per reading of [bufferedAmount]. *)
Fixpoint pump (e : Env) (readings : list N) (h : Hook) : completion :=
  match readings with
  | [] => Normal h
  | b :: rest =>
      match pump_step e b h with
      | Normal h' => pump e rest h'
      | Throw h' => Throw h'
      end
  end.

(** [sendFile(file)] and the continuations that follow it. *)
Definition transfer (e : Env) (file : File) (readings : list N) (h : Hook)
  : completion :=
  match sendFile file h with
  | Normal h' => pump e readings h'
  | Throw h' => Throw h'
  end.

(** The readings at which the sender is let through. *)
Definition go_count (threshold : N) (readings : list N) : nat :=
  List.length (filter (fun b => b <=? threshold) readings).

(** [ceil(size / CHUNK_SIZE)]. *)
Definition chunk_count (size : N) : N := (size + CHUNK_SIZE - 1) / CHUNK_SIZE.

(** The chunk at index [i]: the bytes from [i * CHUNK_SIZE]. *)
Definition chunk_at (buffer : bytes) (i : N) : bytes :=
  slice buffer (i * CHUNK_SIZE) (i * CHUNK_SIZE + CHUNK_SIZE).

Definition chunks_upto (buffer : bytes) (k : nat) : list bytes :=
  map (fun i => chunk_at buffer (N.of_nat i)) (seq 0 k).

Definition chunks_of (buffer : bytes) : list bytes :=
  chunks_upto buffer (N.to_nat (chunk_count (byteLength buffer))).

(** What a whole transfer of [file] puts on the channel. *)
Definition transfer_frames (file : File) : list Frame :=
  FText (stringify (FileMetaMessage (fileInfo_of file)))
    :: map FBinary (chunks_of (file_bytes file))
    ++ [FText (stringify FileEndMessage)].

(** How the transfer in flight will be continued. *)
Inductive Pending : Type := by_load | by_timer | by_drain.

(** The hook while [file] is being sent over [ch], [k] chunks sent. *)
Definition sending (h : Hook) (ch : RTCDataChannel) (file : File) (k : nat)
  (p : Pending) : Hook :=
  let job :=
    {| job_file := file;
       job_offset := N.min (N.of_nat k * CHUNK_SIZE) (file_size file) |} in
  set_timers (match p with by_timer => [job] | _ => [] end)
    (set_readers (match p with by_load => [file] | _ => [] end)
       (set_dc
          (Some {| readyState := rs_open;
                   bufferedAmountLowThreshold := bufferedAmountLowThreshold ch;
                   onbufferedamountlow :=
                     match p with by_drain => Some job | _ => None end;
                   sent := sent ch
                           ++ FText (stringify (FileMetaMessage (fileInfo_of file)))
                           :: map FBinary (chunks_upto (file_bytes file) k) |})
          h)).

(** The hook when the transfer of [file] over [ch] is complete. *)
Definition sent_file (e : Env) (h : Hook) (ch : RTCDataChannel) (file : File)
  : Hook :=
  setReceivedMessages
    (fun prev => prev ++
       [FileEntry {| fm_id := randomUUID e; fm_sender := me;
                     fm_timestamp := now e;
                     fm_fileInfo := Val (FileInfo_object (fileInfo_of file));
                     fm_downloadUrl := createObjectURL e |}])
    (set_objectURLs
       (objectURLs h ++ [(createObjectURL e, blob_of_file file)])
       (set_timers []
          (set_readers []
             (set_dc
                (Some {| readyState := rs_open;
                         bufferedAmountLowThreshold := bufferedAmountLowThreshold ch;
                         onbufferedamountlow := None;
                         sent := sent ch ++ transfer_frames file |})
                h)))).

(** Whether the remote description in [blob] fails to parse or to apply. *)
Definition remote_rejected (n : Negotiation) (blob : jsstring) : bool :=
  match JSON.parse blob with
  | None => true
  | Some d => negb (host_setRemoteDescription n d)
  end.

(** Binary frames as channel messages. *)
Definition binary_messages (cs : list (Env * bytes)) : list (Env * MessageData) :=
  map (fun c => (fst c, DataArrayBuffer (snd c))) cs.

(** Whether [message.type] is one of the three record types; reading the
    type of [null] throws, so [null] has none. *)
Definition known_type (message : json) : bool :=
  match get (Val message) (js "type") with
  | Some type =>
      is_string type (js "text") || is_string type (js "file-meta")
      || is_string type (js "file-end")
  | None => false
  end.

Definition env0 : Env :=
  {| randomUUID := js "6fa1c9e2-0000-4000-8000-000000000000";
     now := 1700000000000;
     createObjectURL := js "blob:peerdrop/0" |}.

(** [message.payload] of an object. *)
Definition payload_of (o : list (jsstring * json)) : jsval :=
  match obj_get (js "payload") o with
  | Some p => Val p
  | None => Undefined
  end.

(** *** Sample states and inputs *)

(** A transfer of [photo.png] that has received one frame. *)
Definition receiving : Hook :=
  set_fileReceiver
    (Some {| info := Val (FileInfo_object
                            {| fi_name := js "photo.png"; fi_size := 5;
                               fi_type := js "image/png" |});
             chunks := [[x01; x02]] |})
    initial.

Definition notes_info : FileInfo :=
  {| fi_name := js "notes.txt"; fi_size := 3; fi_type := js "text/plain" |}.

(** A host on which every negotiation step succeeds. *)
Definition host_ok : Negotiation :=
  {| host_createOffer := Some {| sd_type := js "offer"; sd_sdp := js "v=0" |};
     host_createAnswer := Some {| sd_type := js "answer"; sd_sdp := js "v=0" |};
     host_setLocalDescription := true;
     host_setRemoteDescription := fun _ => true |}.

(** A session whose channel is open: an offer, then the channel opens. *)
Definition open_session : Hook := run [call_createOffer host_ok; ev_open] initial.

Definition open_channel : RTCDataChannel :=
  {| readyState := rs_open; bufferedAmountLowThreshold := 0;
     onbufferedamountlow := None; sent := [] |}.

Definition small_file : File :=
  {| file_name := js "notes.txt"; file_type := js "text/plain";
     file_bytes := [x68; x69; x0a] |}.

(** A channel frame as the message the peer's channel delivers. *)
Definition delivered (e : Env) (f : Frame) : Env * MessageData :=
  match f with
  | FText s => (e, DataString s)
  | FBinary b => (e, DataArrayBuffer b)
  end.

(** The record [sendText] puts on the channel. *)
Definition text_record (id content : jsstring) (timestamp : N) : json :=
  JObj [(js "type", JStr (js "text"));
        (js "id", JStr id);
        (js "content", JStr content);
        (js "timestamp", JNum (Z.of_N timestamp) 0)].

(** The text of that record. *)
Definition text_record_text (id content : jsstring) (timestamp : N) : jsstring :=
  123 :: quote (js "type") ++ 58 :: quote (js "text") ++ 44 ::
    quote (js "id") ++ 58 :: quote id ++ 44 ::
    quote (js "content") ++ 58 :: quote content ++ 44 ::
    quote (js "timestamp") ++ 58 :: N_to_string timestamp ++ [125].

(** A file of 40000 bytes. *)
Definition file_40000 : File :=
  {| file_name := js "clip.bin"; file_type := js "application/octet-stream";
     file_bytes := repeat x2a (N.to_nat 40000) |}.

(** A record of a type the hook does not know. *)
Definition ping_record : json := JObj [(js "type", JStr (js "ping"))].

(** The text of a file-meta record. *)
Definition file_meta_text (name : jsstring) (size : N) (type : jsstring)
  : jsstring :=
  123 :: quote (js "type") ++ 58 :: quote (js "file-meta") ++ 44 ::
    quote (js "payload") ++ 58 :: 123 ::
      quote (js "name") ++ 58 :: quote name ++ 44 ::
      quote (js "size") ++ 58 :: N_to_string size ++ 44 ::
      quote (js "type") ++ 58 :: quote type ++ [125; 125].

(** The log entry of a file the local user sent. *)
Definition sent_entry (e : Env) (file : File) : ReceivedMessage :=
  FileEntry {| fm_id := randomUUID e; fm_sender := me;
               fm_timestamp := now e;
               fm_fileInfo := Val (FileInfo_object (fileInfo_of file));
               fm_downloadUrl := createObjectURL e |}.

(** The log entry of a file received from the peer. *)
Definition received_entry (e : Env) (file : File) : ReceivedMessage :=
  FileEntry {| fm_id := randomUUID e; fm_sender := peer;
               fm_timestamp := now e;
               fm_fileInfo := Val (FileInfo_object (fileInfo_of file));
               fm_downloadUrl := createObjectURL e |}.

(** An open channel that has sent [frames]. *)
Definition channel_after (ch : RTCDataChannel) (frames : list Frame)
  : RTCDataChannel :=
  {| readyState := rs_open;
     bufferedAmountLowThreshold := bufferedAmountLowThreshold ch;
     onbufferedamountlow := None;
     sent := sent ch ++ frames |}.

Definition second_file : File :=
  {| file_name := js "b.bin"; file_type := js "application/octet-stream";
     file_bytes := [x01; x02] |}.

(** A text record in which the peer claims to be the local user. *)
Definition spoofed_text : list (jsstring * json) :=
  [(js "type", JStr (js "text")); (js "sender", JStr (js "me"));
   (js "content", JStr (js "hi"))].

(** A file-meta record without payload. *)
Definition bare_meta : list (jsstring * json) :=
  [(js "type", JStr (js "file-meta"))].

(** A file-meta record whose payload has a type with no string form: the
    object has an own property [toString] that is not a function. *)
Definition unconvertible_meta : list (jsstring * json) :=
  [(js "type", JStr (js "file-meta"));
   (js "payload",
    JObj [(js "name", JStr (js "a.txt")); (js "size", JNum 1 0);
          (js "type", JObj [(js "toString", JNum 1 0)])])].

(** A session description as the object [JSON.stringify] sees,
    [{ type, sdp }], and the text of that object. *)
Definition description_object (d : SessionDescription) : json :=
  JObj [(js "type", JStr (sd_type d)); (js "sdp", JStr (sd_sdp d))].

Definition description_text (type sdp : jsstring) : jsstring :=
  123 :: quote (js "type") ++ 58 :: quote type ++ 44 ::
    quote (js "sdp") ++ 58 :: quote sdp ++ [125].

(** ** The components *)

(** The white space and line terminators [String.prototype.trim] strips. *)
Definition is_js_space (c : N) : bool :=
  (c =? 9) || (c =? 10) || (c =? 11) || (c =? 12) || (c =? 13) || (c =? 32)
  || (c =? 160) || (c =? 5760) || ((8192 <=? c) && (c <=? 8202))
  || (c =? 8232) || (c =? 8233) || (c =? 8239) || (c =? 8287)
  || (c =? 12288) || (c =? 65279).

Fixpoint trimStart (s : jsstring) : jsstring :=
  match s with
  | c :: r => if is_js_space c then trimStart r else s
  | [] => []
  end.

Definition trim (s : jsstring) : jsstring :=
  rev (trimStart (rev (trimStart s))).

(** A string in a condition: the empty string is false. *)
Definition truthy (s : jsstring) : bool :=
  match s with
  | [] => false
  | _ :: _ => true
  end.

(** *** ConnectionManager.tsx *)

Definition handleJoin (n : Negotiation) (remoteSdp : jsstring) (h : Hook)
  : completion :=
  if truthy (trim remoteSdp) then createAnswer n remoteSdp h else Normal h.

Definition handleConnect (n : Negotiation) (remoteSdp : jsstring) (h : Hook)
  : completion :=
  if truthy (trim remoteSdp) then setRemoteAnswer n remoteSdp h else Normal h.

(** *** ShareInterface.tsx *)

(** [handleSend], with the content of the input box before and after. *)
Definition handleSend (e : Env) (text : jsstring) (h : Hook)
  : jsstring * completion :=
  if truthy (trim text) then
    match sendText e text h with
    | Normal h' => ([], Normal h')
    | Throw h' => (text, Throw h')
    end
  else (text, Normal h).

Definition handleKeyPress (key : jsstring) (shiftKey : bool) (e : Env)
  (text : jsstring) (h : Hook) : jsstring * completion :=
  if jsstring_eqb key (js "Enter") && negb shiftKey
  then handleSend e text h
  else (text, Normal h).

(** *** App.tsx *)

(** What [renderContent] puts on screen: the connection manager, with or
    without the failure notice above it, the spinner, or the share
    interface. *)
Inductive View : Type :=
| show_ConnectionManager (failure_notice : bool)
| show_spinner
| show_ShareInterface.

Definition renderContent (connectionState : ConnectionState) : View :=
  match connectionState with
  | disconnected => show_ConnectionManager false
  | failed => show_ConnectionManager true
  | connecting => show_spinner
  | connected => show_ShareInterface
  end.

(** ** Facts about the JSON model *)

Module JSONFacts.

Local Open Scope N_scope.

Ltac case_test :=
  match goal with
  | |- context [N.eqb ?a ?b] => destruct (N.eqb_spec a b)
  | |- context [N.ltb ?a ?b] => destruct (N.ltb_spec a b)
  | |- context [N.leb ?a ?b] => destruct (N.leb_spec a b)
  end.

Lemma hex_value_digit (d : N) : d < 16 -> hex_value (hex_digit d) = Some d.
Proof.
  intros Hd. unfold hex_value, hex_digit, is_digit.
  repeat (case_test; cbn [andb orb]; try lia); f_equal; lia.
Qed.

Lemma hex4_escape (c : N) :
  c < 65536 ->
  hex4 (hex_digit (c / 4096 mod 16)) (hex_digit (c / 256 mod 16))
       (hex_digit (c / 16 mod 16)) (hex_digit (c mod 16)) = Some c.
Proof.
  intros Hc. unfold hex4.
  rewrite !hex_value_digit by (apply N.mod_lt; discriminate).
  f_equal.
  assert (H1 : c = 16 * (c / 16) + c mod 16)
    by (apply N.div_mod; discriminate).
  assert (H2 : c / 16 = 16 * (c / 256) + (c / 16) mod 16).
  { replace (c / 256) with (c / 16 / 16) by (rewrite N.Div0.div_div; reflexivity).
    apply N.div_mod; discriminate. }
  assert (H3 : c / 256 = 16 * (c / 4096) + (c / 256) mod 16).
  { replace (c / 4096) with (c / 256 / 16) by (rewrite N.Div0.div_div; reflexivity).
    apply N.div_mod; discriminate. }
  assert (H4 : c / 4096 < 16) by (apply N.Div0.div_lt_upper_bound; exact Hc).
  rewrite (N.mod_small (c / 4096) 16) by exact H4.
  lia.
Qed.

Lemma parse_chars_plain (c : N) (t : jsstring) :
  c <> 34 -> c <> 92 -> 32 <= c ->
  parse_chars (c :: t) = cons_char c (parse_chars t).
Proof.
  intros H1 H2 H3. cbn [parse_chars].
  destruct (N.eqb_spec c 34); [contradiction|].
  destruct (N.eqb_spec c 92); [contradiction|].
  destruct (N.ltb_spec c 32); [lia|]. reflexivity.
Qed.

Lemma parse_chars_u (h1 h2 h3 h4 : N) (t : jsstring) :
  parse_chars (92 :: 117 :: h1 :: h2 :: h3 :: h4 :: t) =
  match hex4 h1 h2 h3 h4, parse_chars t with
  | Some u, Some (str, rest) => Some (u :: str, rest)
  | _, _ => None
  end.
Proof. reflexivity. Qed.

Lemma parse_chars_unicode_escape (c : N) (t : jsstring) :
  c < 65536 ->
  parse_chars (unicode_escape c ++ t) = cons_char c (parse_chars t).
Proof.
  intros Hc. unfold unicode_escape. cbn [app].
  rewrite parse_chars_u, hex4_escape by exact Hc. reflexivity.
Qed.

Lemma parse_chars_quote_unit (c : N) (t : jsstring) :
  parse_chars (quote_unit c ++ t) = cons_char c (parse_chars t).
Proof.
  unfold quote_unit.
  repeat (case_test; [subst; reflexivity|]).
  case_test.
  - apply parse_chars_unicode_escape. lia.
  - apply parse_chars_plain; assumption.
Qed.

Lemma parse_chars_quote_chars_len (n : nat) :
  forall s t, (List.length s <= n)%nat ->
    parse_chars (quote_chars s ++ 34 :: t) = Some (s, t).
Proof.
  induction n as [|n IH]; intros s t Hlen.
  - destruct s; [reflexivity | cbn in Hlen; lia].
  - destruct s as [|c rest]; [reflexivity|].
    cbn [List.length] in Hlen. cbn [quote_chars].
    destruct (is_high_surrogate c) eqn:Hhi.
    + unfold is_high_surrogate in Hhi.
      apply andb_true_iff in Hhi as [Ha Hb].
      apply N.leb_le in Ha, Hb.
      destruct rest as [|d rest].
      * rewrite parse_chars_unicode_escape by lia. reflexivity.
      * destruct (is_low_surrogate d) eqn:Hlo.
        -- unfold is_low_surrogate in Hlo.
           apply andb_true_iff in Hlo as [Hc Hd].
           apply N.leb_le in Hc, Hd.
           cbn [app]. rewrite !parse_chars_plain by lia.
           rewrite IH by (cbn [List.length] in Hlen; lia). reflexivity.
        -- rewrite <- app_assoc, parse_chars_unicode_escape by lia.
           rewrite IH by lia. reflexivity.
    + destruct (is_low_surrogate c) eqn:Hlo.
      * unfold is_low_surrogate in Hlo.
        apply andb_true_iff in Hlo as [Hc Hd].
        apply N.leb_le in Hc, Hd.
        rewrite <- app_assoc, parse_chars_unicode_escape by lia.
        rewrite IH by lia. reflexivity.
      * rewrite <- app_assoc, parse_chars_quote_unit.
        rewrite IH by lia. reflexivity.
Qed.

(** Reading back a quoted string gives the string. *)
Lemma parse_chars_quote_chars (s t : jsstring) :
  parse_chars (quote_chars s ++ 34 :: t) = Some (s, t).
Proof. apply (parse_chars_quote_chars_len (List.length s)). lia. Qed.

(** *** Numbers *)

Lemma digits_value_snoc (ds : list N) (d : N) :
  digits_value (ds ++ [d]) = 10 * digits_value ds + d.
Proof. unfold digits_value. rewrite fold_left_app. reflexivity. Qed.

Lemma dec_digits_spec (f : nat) :
  forall n, n < 10 ^ N.of_nat (S f) ->
    let ds := dec_digits (S f) n in
    digits_value ds = n /\ Forall (fun d => d < 10) ds /\
    ds <> [] /\ (0 < n -> hd 0 ds <> 0).
Proof.
  induction f as [|f IH]; intros n Hn;
    change (dec_digits (S ?g) n)
      with (if n <? 10 then [n] else dec_digits g (n / 10) ++ [n mod 10]);
    cbv zeta.
  - change (10 ^ N.of_nat 1) with 10 in Hn.
    destruct (N.ltb_spec n 10); [|lia].
    repeat split; [constructor; [assumption|constructor] | discriminate | cbn; lia].
  - destruct (N.ltb_spec n 10).
    + repeat split; [constructor; [assumption|constructor] | discriminate | cbn; lia].
    + assert (Hq : n / 10 < 10 ^ N.of_nat (S f)).
      { apply N.Div0.div_lt_upper_bound.
        rewrite <- N.pow_succ_r by lia. rewrite <- Nnat.Nat2N.inj_succ. exact Hn. }
      destruct (IH _ Hq) as (Hv & Hall & Hne & Hhd).
      assert (Hm : n mod 10 < 10) by (apply N.mod_lt; discriminate).
      assert (Hdm : n = 10 * (n / 10) + n mod 10) by (apply N.div_mod; discriminate).
      repeat split.
      * rewrite digits_value_snoc, Hv. lia.
      * apply Forall_app. split; [exact Hall | constructor; [exact Hm | constructor]].
      * intros Habs. apply app_eq_nil in Habs. destruct Habs as [_ Habs]. discriminate.
      * intros _. destruct (dec_digits (S f) (n / 10)) as [|d ds] eqn:E;
          [contradiction|].
        cbn [app hd] in *. apply Hhd. lia.
Qed.

Lemma N_to_string_spec (n : N) :
  exists ds, N_to_string n = map digit_char ds /\ digits_value ds = n /\
             Forall (fun d => d < 10) ds /\ ds <> [] /\ (0 < n -> hd 0 ds <> 0).
Proof.
  exists (dec_digits (S (N.to_nat (N.log2 n))) n). split; [reflexivity|].
  apply dec_digits_spec.
  rewrite Nnat.Nat2N.inj_succ, Nnat.N2Nat.id.
  destruct n as [|p]; [reflexivity|].
  apply N.lt_le_trans with (2 ^ N.succ (N.log2 (N.pos p))).
  - apply N.log2_spec. reflexivity.
  - apply N.pow_le_mono_l. lia.
Qed.

Lemma is_digit_char (d : N) : d < 10 -> is_digit (digit_char d) = true.
Proof.
  intros Hd. unfold is_digit, digit_char.
  apply andb_true_iff. split; apply N.leb_le; lia.
Qed.

Lemma span_digits_chars (ds : list N) (rest : jsstring) :
  Forall (fun d => d < 10) ds ->
  match rest with [] => true | c :: _ => negb (is_digit c) end = true ->
  span_digits (map digit_char ds ++ rest) = (ds, rest).
Proof.
  intros Hall Hrest. induction Hall as [|d ds Hd Hall IH]; cbn [map app].
  - destruct rest as [|c r]; [reflexivity|]. cbn [span_digits].
    apply negb_true_iff in Hrest. rewrite Hrest. reflexivity.
  - cbn [span_digits]. rewrite is_digit_char by exact Hd. rewrite IH.
    f_equal. f_equal. unfold digit_char. lia.
Qed.

Lemma parse_frac_end (rest : jsstring) :
  number_end rest = true -> parse_frac rest = Some ([], rest).
Proof.
  intros Hend. destruct rest as [|c r]; [reflexivity|].
  cbn in Hend. cbn [parse_frac].
  destruct (N.eqb_spec c 46); [|reflexivity].
  subst. discriminate.
Qed.

Lemma parse_exp_end (rest : jsstring) :
  number_end rest = true -> parse_exp rest = Some (0%Z, rest).
Proof.
  intros Hend. destruct rest as [|c r]; [reflexivity|].
  cbn in Hend. cbn [parse_exp].
  apply negb_true_iff in Hend.
  destruct (is_digit c); [discriminate|].
  destruct (c =? 46); [discriminate|].
  cbn [orb] in Hend. rewrite Hend. reflexivity.
Qed.

(** Reading back a written natural number gives the number. *)
Lemma parse_number_N (n : N) (rest : jsstring) :
  number_end rest = true ->
  parse_number (N_to_string n ++ rest) = Some (JNum (Z.of_N n) 0, rest).
Proof.
  intros Hend.
  assert (Hdig : match rest with [] => true | c :: _ => negb (is_digit c) end = true).
  { destruct rest as [|c r]; [reflexivity|]. cbn in Hend.
    apply negb_true_iff in Hend. apply negb_true_iff.
    destruct (is_digit c); [discriminate | reflexivity]. }
  destruct (N.eq_dec n 0) as [->|Hpos].
  { change (N_to_string 0) with [48]. unfold parse_number. cbn [app].
    change (48 =? 45) with false. cbv iota. unfold parse_int.
    change (48 =? 48) with true. cbv iota.
    rewrite parse_frac_end, parse_exp_end by exact Hend. reflexivity. }
  destruct (N_to_string_spec n) as (ds & Hs & Hv & Hall & Hne & Hhd).
  rewrite Hs. destruct ds as [|d ds]; [contradiction|].
  inversion Hall as [|? ? Hd Hall']; subst.
  assert (Hd0 : d <> 0) by (apply Hhd; lia).
  unfold parse_number. cbn [map app].
  destruct (N.eqb_spec (digit_char d) 45) as [E|_];
    [unfold digit_char in E; lia|].
  unfold parse_int.
  destruct (N.eqb_spec (digit_char d) 48) as [E|NE];
    [unfold digit_char in E; lia|].
  rewrite is_digit_char by exact Hd.
  change (digit_char d :: map digit_char ds ++ rest)
    with (map digit_char (d :: ds) ++ rest).
  rewrite span_digits_chars by assumption.
  rewrite parse_frac_end, parse_exp_end by exact Hend.
  cbn [List.length]. rewrite app_nil_r. reflexivity.
Qed.

(** *** Every reader consumes input *)

Ltac break_match :=
  match goal with
  | H : context [match ?x with _ => _ end] |- _ => destruct x eqn:?
  | |- context [match ?x with _ => _ end] => destruct x eqn:?
  end.

Abbreviation len := (@List.length N).

Lemma skip_ws_length (s : jsstring) : (len (skip_ws s) <= len s)%nat.
Proof.
  induction s as [|c r IH]; cbn [skip_ws]; [lia|].
  destruct (is_ws c); cbn [List.length] in *; lia.
Qed.

Lemma skip_ws_cons_length (s r : jsstring) (c : N) :
  skip_ws s = c :: r -> (len r < len s)%nat.
Proof.
  intros E. pose proof (skip_ws_length s) as H. rewrite E in H.
  cbn [List.length] in H. lia.
Qed.

Lemma parse_chars_length_aux (n : nat) :
  forall s str r, (len s <= n)%nat ->
    parse_chars s = Some (str, r) -> (len r < len s)%nat.
Proof.
  induction n as [|n IH]; intros s str r Hn E.
  - destruct s; [discriminate | cbn in Hn; lia].
  - destruct s as [|c s]; [discriminate|].
    cbn [parse_chars] in E. cbn [List.length] in *.
    repeat break_match; try discriminate;
      inversion E; subst; cbn [List.length] in *; try lia;
      match goal with
      | H : parse_chars ?t = Some (_, _) |- _ =>
          apply IH in H; cbn [List.length] in *; lia
      end.
Qed.

Lemma parse_chars_length (s str r : jsstring) :
  parse_chars s = Some (str, r) -> (len r < len s)%nat.
Proof. apply (parse_chars_length_aux (len s)). lia. Qed.

Lemma span_digits_length (s : jsstring) :
  forall ds r, span_digits s = (ds, r) -> (len r <= len s)%nat.
Proof.
  induction s as [|c s IH]; intros ds r E; cbn [span_digits] in E.
  - inversion E. cbn. lia.
  - destruct (is_digit c).
    + destruct (span_digits s) as [ds' r'] eqn:E'. inversion E; subst.
      specialize (IH _ _ eq_refl). cbn [List.length]. lia.
    + inversion E; subst. lia.
Qed.

Lemma parse_int_length (s : jsstring) (ds : list N) (r : jsstring) :
  parse_int s = Some (ds, r) -> (len r < len s)%nat.
Proof.
  unfold parse_int. destruct s as [|c s]; [discriminate|].
  destruct (c =? 48).
  - intros E. inversion E; subst. cbn. lia.
  - destruct (is_digit c) eqn:D; [|discriminate].
    cbn [span_digits]. rewrite D.
    destruct (span_digits s) as [ds' r'] eqn:E'. intros E. inversion E; subst.
    apply span_digits_length in E'. cbn [List.length]. lia.
Qed.

Lemma parse_frac_length (s : jsstring) (ds : list N) (r : jsstring) :
  parse_frac s = Some (ds, r) -> (len r <= len s)%nat.
Proof.
  unfold parse_frac. destruct s as [|c s].
  - intros E. inversion E. cbn. lia.
  - destruct (c =? 46).
    + destruct (span_digits s) as [ds' r'] eqn:E'.
      apply span_digits_length in E'.
      destruct ds'; [discriminate|]. intros E. inversion E; subst.
      cbn [List.length]. lia.
    + intros E. inversion E; subst. lia.
Qed.

Lemma parse_exp_length (s : jsstring) (x : Z) (r : jsstring) :
  parse_exp s = Some (x, r) -> (len r <= len s)%nat.
Proof.
  unfold parse_exp. destruct s as [|c s].
  - intros E. inversion E. cbn. lia.
  - destruct ((c =? 101) || (c =? 69)).
    + intros E.
      assert (Hlen : forall r1 ds, span_digits r1 = (ds, r) ->
                (len r1 <= len s)%nat -> (len r <= len (c :: s))%nat).
      { intros r1 ds E' Hr1. apply span_digits_length in E'.
        cbn [List.length]. lia. }
      destruct s as [|sg s'].
      * destruct (span_digits []) as [ds r0] eqn:E'. destruct ds; [discriminate|].
        inversion E; subst. eapply Hlen; [exact E' | lia].
      * destruct (sg =? 45); [|destruct (sg =? 43)];
          match type of E with
          | context [span_digits ?t] =>
              destruct (span_digits t) as [ds r0] eqn:E'
          end;
          (destruct ds; [discriminate|]); inversion E; subst;
          (eapply Hlen; [exact E' | cbn [List.length]; lia]).
    + intros E. inversion E; subst. lia.
Qed.

Lemma parse_number_length (s : jsstring) (v : json) (r : jsstring) :
  parse_number s = Some (v, r) -> (len r < len s)%nat.
Proof.
  unfold parse_number. intros E.
  assert (Hs1 : forall s1 ids s2 fds s3 x,
             parse_int s1 = Some (ids, s2) -> parse_frac s2 = Some (fds, s3) ->
             parse_exp s3 = Some (x, r) -> (len r < len s1)%nat).
  { intros s1 ids s2 fds s3 x Hi Hf He.
    apply parse_int_length in Hi. apply parse_frac_length in Hf.
    apply parse_exp_length in He. lia. }
  destruct s as [|c s].
  - cbn in E. discriminate.
  - destruct (c =? 45);
      match type of E with
      | context [parse_int ?t] =>
          destruct (parse_int t) as [[ids s2]|] eqn:Hi; [|discriminate]
      end;
      (destruct (parse_frac s2) as [[fds s3]|] eqn:Hf; [|discriminate]);
      (destruct (parse_exp s3) as [[x s4]|] eqn:He; [|discriminate]);
      inversion E; subst;
      specialize (Hs1 _ _ _ _ _ _ Hi Hf He); cbn [List.length] in *; lia.
Qed.

Lemma strip_prefix_length (p : jsstring) :
  forall s r, strip_prefix p s = Some r -> (len r + len p = len s)%nat.
Proof.
  induction p as [|x p IH]; intros s r E; cbn [strip_prefix] in E.
  - inversion E; subst. cbn. lia.
  - destruct s as [|y s]; [discriminate|].
    destruct (x =? y); [|discriminate].
    apply IH in E. cbn [List.length]. lia.
Qed.

Lemma parse_literal_length (s : jsstring) (v : json) (r : jsstring) :
  parse_literal s = Some (v, r) -> (len r < len s)%nat.
Proof.
  unfold parse_literal. intros E.
  repeat break_match; try discriminate; inversion E; subst;
    match goal with
    | H : strip_prefix _ _ = Some _ |- _ =>
        apply strip_prefix_length in H; cbn in H; lia
    end.
Qed.

(** *** The recursive descent, one level at a time *)

Lemma parse_value_S (f : nat) (s : jsstring) :
  parse_value (S f) s =
  match skip_ws s with
  | [] => SyntaxError
  | c :: r =>
      if c =? 123 then
        match skip_ws r with
        | d :: r' => if d =? 125 then Ok (JObj [], r') else parse_members f r []
        | [] => SyntaxError
        end
      else if c =? 91 then
        match skip_ws r with
        | d :: r' => if d =? 93 then Ok (JArr [], r') else parse_elements f r []
        | [] => SyntaxError
        end
      else if c =? 34 then
        match parse_chars r with
        | Some (str, rest) => Ok (JStr str, rest)
        | None => SyntaxError
        end
      else if (c =? 45) || is_digit c then of_option (parse_number (c :: r))
      else of_option (parse_literal (c :: r))
  end.
Proof. reflexivity. Qed.

Lemma parse_elements_S (f : nat) (s : jsstring) (acc : list json) :
  parse_elements (S f) s acc =
  match parse_value f s with
  | Ok (v, r) =>
      match skip_ws r with
      | d :: r' =>
          if d =? 44 then parse_elements f r' (acc ++ [v])
          else if d =? 93 then Ok (JArr (acc ++ [v]), r')
          else SyntaxError
      | [] => SyntaxError
      end
  | SyntaxError => SyntaxError
  | OutOfFuel => OutOfFuel
  end.
Proof. reflexivity. Qed.

Lemma parse_members_S (f : nat) (s : jsstring) (acc : list (jsstring * json)) :
  parse_members (S f) s acc =
  match skip_ws s with
  | q :: r =>
      if q =? 34 then
        match parse_chars r with
        | Some (k, r1) =>
            match skip_ws r1 with
            | col :: r2 =>
                if col =? 58 then
                  match parse_value f r2 with
                  | Ok (v, r3) =>
                      match skip_ws r3 with
                      | d :: r4 =>
                          if d =? 44 then parse_members f r4 (obj_set k v acc)
                          else if d =? 125 then Ok (JObj (obj_set k v acc), r4)
                          else SyntaxError
                      | [] => SyntaxError
                      end
                  | SyntaxError => SyntaxError
                  | OutOfFuel => OutOfFuel
                  end
                else SyntaxError
            | [] => SyntaxError
            end
        | None => SyntaxError
        end
      else SyntaxError
  | [] => SyntaxError
  end.
Proof. reflexivity. Qed.

(** Collects what the hypotheses say about lengths. *)
Ltac length_facts :=
  repeat match goal with
    | H : skip_ws _ = _ :: _ |- _ => apply skip_ws_cons_length in H
    | H : parse_chars _ = Some (_, _) |- _ => apply parse_chars_length in H
    | H : parse_number _ = Some (_, _) |- _ => apply parse_number_length in H
    | H : parse_literal _ = Some (_, _) |- _ => apply parse_literal_length in H
    end;
  cbn [List.length] in *.

Lemma parse_length (f : nat) :
  (forall s v r, parse_value f s = Ok (v, r) -> (len r < len s)%nat) /\
  (forall s acc v r, parse_elements f s acc = Ok (v, r) -> (len r < len s)%nat) /\
  (forall s acc v r, parse_members f s acc = Ok (v, r) -> (len r < len s)%nat).
Proof.
  induction f as [|f (IHv & IHe & IHm)].
  - repeat split; intros; discriminate.
  - repeat split.
    + intros s v r E. rewrite parse_value_S in E.
      unfold of_option in E.
      repeat break_match; try discriminate; inversion E; subst;
        try (match goal with
             | H : parse_members _ _ _ = Ok _ |- _ => apply IHm in H
             | H : parse_elements _ _ _ = Ok _ |- _ => apply IHe in H
             end);
        length_facts; lia.
    + intros s acc v r E. rewrite parse_elements_S in E.
      repeat break_match; try discriminate; try (inversion E; subst);
        repeat match goal with
          | H : parse_value _ _ = Ok _ |- _ => apply IHv in H
          | H : parse_elements _ _ _ = Ok _ |- _ => apply IHe in H
          end;
        length_facts; lia.
    + intros s acc v r E. rewrite parse_members_S in E.
      repeat break_match; try discriminate; try (inversion E; subst);
        repeat match goal with
          | H : parse_value _ _ = Ok _ |- _ => apply IHv in H
          | H : parse_members _ _ _ = Ok _ |- _ => apply IHm in H
          end;
        length_facts; lia.
Qed.

(** The fuel [parse] gives is never used up: its [None] is a syntax error. *)
Lemma parse_fuel_enough (f : nat) :
  (forall s, (2 * len s < f)%nat -> parse_value f s <> OutOfFuel) /\
  (forall s acc, (2 * len s + 1 < f)%nat -> parse_elements f s acc <> OutOfFuel) /\
  (forall s acc, (2 * len s < f)%nat -> parse_members f s acc <> OutOfFuel).
Proof.
  induction f as [|f (IHv & IHe & IHm)].
  - repeat split; intros; lia.
  - repeat split.
    + intros s Hf. rewrite parse_value_S. unfold of_option.
      repeat break_match; try discriminate;
        (apply IHm || apply IHe); length_facts; lia.
    + intros s acc Hf. rewrite parse_elements_S.
      destruct (parse_value f s) as [[v r]| |] eqn:E; [|discriminate|].
      * apply (proj1 (parse_length f)) in E.
        repeat break_match; try discriminate.
        apply IHe. length_facts. lia.
      * exfalso. apply (IHv s); [lia | exact E].
    + intros s acc Hf. rewrite parse_members_S.
      repeat break_match; try discriminate.
      * apply IHm.
        match goal with
        | H : parse_value _ _ = Ok _ |- _ => apply (proj1 (parse_length f)) in H
        end.
        length_facts. lia.
      * intros _.
        match goal with
        | H : parse_value _ ?t = OutOfFuel |- _ => apply (IHv t)
        end; [length_facts; lia | assumption].
Qed.

Lemma parse_value_total (s : jsstring) :
  parse_value (parse_fuel s) s <> OutOfFuel.
Proof. apply (proj1 (parse_fuel_enough (parse_fuel s))). unfold parse_fuel. lia. Qed.

(** [JSON.parse] rejects a text only for its syntax: no value can be read,
    or something other than white space follows the value. *)
Lemma parse_None (s : jsstring) :
  JSON.parse s = None ->
  parse_value (parse_fuel s) s = SyntaxError \/
  exists v rest c r,
    parse_value (parse_fuel s) s = Ok (v, rest) /\ skip_ws rest = c :: r.
Proof.
  unfold JSON.parse. pose proof (parse_value_total s) as Htotal.
  destruct (parse_value (parse_fuel s) s) as [[v rest]| |];
    [|left; reflexivity | contradiction].
  destruct (skip_ws rest) as [|c r] eqn:E; [discriminate|].
  intros _. right. exists v, rest, c, r. split; [reflexivity | exact E].
Qed.

(** More fuel does not change a result. *)
Lemma parse_fuel_step (f : nat) :
  (forall s, parse_value f s <> OutOfFuel ->
             parse_value (S f) s = parse_value f s) /\
  (forall s acc, parse_elements f s acc <> OutOfFuel ->
                 parse_elements (S f) s acc = parse_elements f s acc) /\
  (forall s acc, parse_members f s acc <> OutOfFuel ->
                 parse_members (S f) s acc = parse_members f s acc).
Proof.
  induction f as [|f (IHv & IHe & IHm)].
  - repeat split; intros; contradiction.
  - repeat split.
    + intros s H. rewrite (parse_value_S (S f)). rewrite parse_value_S in H |- *.
      repeat break_match; try reflexivity; try discriminate;
        (apply IHm || apply IHe); assumption.
    + intros s acc H. rewrite (parse_elements_S (S f)).
      rewrite parse_elements_S in H |- *.
      assert (Hv : parse_value f s <> OutOfFuel)
        by (intros Hv; rewrite Hv in H; contradiction).
      rewrite (IHv _ Hv).
      repeat break_match; try reflexivity; try discriminate.
      apply IHe. assumption.
    + intros s acc H. rewrite (parse_members_S (S f)).
      rewrite parse_members_S in H |- *.
      destruct (skip_ws s) as [|q r]; [reflexivity|].
      destruct (q =? 34); [|reflexivity].
      destruct (parse_chars r) as [[k r1]|]; [|reflexivity].
      destruct (skip_ws r1) as [|col r2]; [reflexivity|].
      destruct (col =? 58); [|reflexivity].
      assert (Hv : parse_value f r2 <> OutOfFuel)
        by (intros Hv; rewrite Hv in H; contradiction).
      rewrite (IHv _ Hv).
      repeat break_match; try reflexivity; try discriminate.
      apply IHm. assumption.
Qed.

Lemma parse_value_fuel_mono (f g : nat) (s : jsstring) (x : json * jsstring) :
  (f <= g)%nat -> parse_value f s = Ok x -> parse_value g s = Ok x.
Proof.
  intros Hle E. induction Hle as [|g Hle IH]; [exact E|].
  rewrite (proj1 (parse_fuel_step g)); [exact IH|].
  rewrite IH. discriminate.
Qed.

End JSONFacts.

(** ** The records on the wire *)

Module WireFacts.

Import JSONFacts.
Local Open Scope N_scope.

Lemma quote_app (k rest : jsstring) :
  quote k ++ rest = 34 :: quote_chars k ++ 34 :: rest.
Proof. unfold quote. cbn [app]. rewrite <- app_assoc. reflexivity. Qed.

Lemma parse_value_quote (f : nat) (s rest : jsstring) :
  parse_value (S f) (quote s ++ rest) = Ok (JStr s, rest).
Proof.
  rewrite quote_app, parse_value_S. cbn [skip_ws].
  change (is_ws 34) with false. cbv iota.
  change (34 =? 123) with false. change (34 =? 91) with false.
  change (34 =? 34) with true. cbv iota.
  rewrite parse_chars_quote_chars. reflexivity.
Qed.

Lemma number_to_string_N (n : N) :
  number_to_string (Z.of_N n) 0 = N_to_string n.
Proof. destruct n; reflexivity. Qed.

Lemma parse_value_N (f : nat) (n : N) (rest : jsstring) :
  number_end rest = true ->
  parse_value (S f) (N_to_string n ++ rest) = Ok (JNum (Z.of_N n) 0, rest).
Proof.
  intros Hend. pose proof (parse_number_N n rest Hend) as Hnum.
  destruct (N_to_string_spec n) as (ds & Hs & _ & Hall & Hne & _).
  rewrite Hs in *. destruct ds as [|d ds]; [contradiction|].
  inversion Hall as [|? ? Hd _]; subst.
  cbn [map app] in *. rewrite parse_value_S.
  assert (Hc : 48 <= digit_char d <= 57) by (unfold digit_char; lia).
  cbn [skip_ws]. unfold is_ws.
  repeat (case_test; try lia; cbn [orb andb]).
  rewrite ?is_digit_char by exact Hd. rewrite ?orb_true_r.
  rewrite Hnum. reflexivity.
Qed.

Lemma skip_ws_quote (k rest : jsstring) :
  skip_ws (quote k ++ rest) = 34 :: quote_chars k ++ 34 :: rest.
Proof. rewrite quote_app. reflexivity. Qed.

(** An object whose first key is [k]. *)
Lemma parse_value_object (f : nat) (k rest : jsstring) :
  parse_value (S f) (123 :: quote k ++ rest) = parse_members f (quote k ++ rest) [].
Proof.
  rewrite parse_value_S. cbn [skip_ws].
  change (is_ws 123) with false. cbv iota.
  change (123 =? 123) with true. cbv iota.
  rewrite skip_ws_quote. reflexivity.
Qed.

(** A member followed by a comma, and the last member. *)
Lemma parse_members_more (f : nat) (k vs rest : jsstring) (v : json)
  (acc : list (jsstring * json)) :
  parse_value f vs = Ok (v, 44 :: rest) ->
  parse_members (S f) (quote k ++ 58 :: vs) acc =
  parse_members f rest (obj_set k v acc).
Proof.
  intros Hv. rewrite parse_members_S, skip_ws_quote.
  change (34 =? 34) with true. cbv iota.
  rewrite parse_chars_quote_chars. cbn [skip_ws].
  change (is_ws 58) with false. cbv iota.
  change (58 =? 58) with true. cbv iota.
  rewrite Hv. reflexivity.
Qed.

Lemma parse_members_last (f : nat) (k vs rest : jsstring) (v : json)
  (acc : list (jsstring * json)) :
  parse_value f vs = Ok (v, 125 :: rest) ->
  parse_members (S f) (quote k ++ 58 :: vs) acc =
  Ok (JObj (obj_set k v acc), rest).
Proof.
  intros Hv. rewrite parse_members_S, skip_ws_quote.
  change (34 =? 34) with true. cbv iota.
  rewrite parse_chars_quote_chars. cbn [skip_ws].
  change (is_ws 58) with false. cbv iota.
  change (58 =? 58) with true. cbv iota.
  rewrite Hv. reflexivity.
Qed.

(** From a result of the descent to [JSON.parse]. *)
Lemma parse_of_parse_value (f : nat) (s : jsstring) (v : json) :
  (f <= parse_fuel s)%nat ->
  parse_value f s = Ok (v, []) -> JSON.parse s = Some v.
Proof.
  intros Hf Hv. unfold JSON.parse.
  rewrite (parse_value_fuel_mono _ _ _ _ Hf Hv). reflexivity.
Qed.

Lemma stringify_file_meta (i : FileInfo) :
  stringify (FileMetaMessage i) =
  file_meta_text (fi_name i) (fi_size i) (fi_type i).
Proof.
  unfold FileMetaMessage, FileInfo_object, file_meta_text.
  cbn [stringify map join fst snd].
  rewrite number_to_string_N.
  cbn [app]. repeat (rewrite <- ?app_assoc; cbn [app]; f_equal).
Qed.

Lemma parse_file_meta_text (name : jsstring) (size : N) (type : jsstring) :
  JSON.parse (file_meta_text name size type) =
  Some (FileMetaMessage
          {| fi_name := name; fi_size := size; fi_type := type |}).
Proof.
  apply (parse_of_parse_value 8).
  { unfold parse_fuel, file_meta_text.
    repeat (progress cbn [List.length] || rewrite length_app). lia. }
  unfold file_meta_text.
  rewrite parse_value_object.
  erewrite parse_members_more by apply parse_value_quote.
  erewrite parse_members_last; [reflexivity|].
  rewrite parse_value_object.
  erewrite parse_members_more by apply parse_value_quote.
  erewrite parse_members_more by (apply parse_value_N; reflexivity).
  erewrite parse_members_last by apply (parse_value_quote _ _ [125; 125]).
  reflexivity.
Qed.

(** Decoding an encoded file-meta record gives the record back. *)
Lemma parse_stringify_file_meta (i : FileInfo) :
  JSON.parse (stringify (FileMetaMessage i)) = Some (FileMetaMessage i).
Proof.
  rewrite stringify_file_meta, parse_file_meta_text. destruct i. reflexivity.
Qed.

Lemma parse_stringify_file_end :
  JSON.parse (stringify FileEndMessage) = Some FileEndMessage.
Proof. reflexivity. Qed.

Lemma stringify_text_record (id content : jsstring) (timestamp : N) :
  stringify (text_record id content timestamp) =
  text_record_text id content timestamp.
Proof.
  unfold text_record, text_record_text.
  cbn [stringify map join fst snd].
  rewrite number_to_string_N.
  cbn [app]. repeat (rewrite <- ?app_assoc; cbn [app]; f_equal).
Qed.

(** Decoding an encoded text record gives the record back. *)
Lemma parse_stringify_text_record (id content : jsstring) (timestamp : N) :
  JSON.parse (stringify (text_record id content timestamp)) =
  Some (text_record id content timestamp).
Proof.
  rewrite stringify_text_record.
  apply (parse_of_parse_value 6).
  { unfold parse_fuel, text_record_text.
    repeat (progress cbn [List.length] || rewrite length_app). lia. }
  unfold text_record_text.
  rewrite parse_value_object.
  erewrite parse_members_more by apply parse_value_quote.
  erewrite parse_members_more by apply parse_value_quote.
  erewrite parse_members_more by apply parse_value_quote.
  erewrite parse_members_last by (apply parse_value_N; reflexivity).
  reflexivity.
Qed.

(** *** The reader on sample frames *)

Example parse_null : JSON.parse (js "null") = Some JNull.
Proof. reflexivity. Qed.

Example parse_number_frame : JSON.parse (js "42") = Some (JNum 42 0).
Proof. reflexivity. Qed.

Example parse_decimal : JSON.parse (js "-1.5e3") = Some (JNum (-15) 2).
Proof. reflexivity. Qed.

Example parse_array :
  JSON.parse (js " [1, true , {}, []] ") =
  Some (JArr [JNum 1 0; JBool true; JObj []; JArr []]).
Proof. reflexivity. Qed.

Example parse_plain_text : JSON.parse (js "hello there") = None.
Proof. reflexivity. Qed.

Example parse_leading_zero : JSON.parse (js "01") = None.
Proof. reflexivity. Qed.

Example parse_open_brace : JSON.parse (js "{") = None.
Proof. reflexivity. Qed.

Example parse_two_values : JSON.parse (js "1 2") = None.
Proof. reflexivity. Qed.

Example parse_duplicate_key :
  JSON.parse (stringify (JObj [(js "a", JNum 1 0); (js "b", JNum 2 0);
                               (js "a", JNum 3 0)])) =
  Some (JObj [(js "a", JNum 3 0); (js "b", JNum 2 0)]).
Proof. reflexivity. Qed.

(** A name with a line feed, a backslash, a quote, a surrogate pair and a
    lone surrogate survives the round trip. *)
Example parse_escaped_name :
  let name := 10 :: 92 :: 34 :: [55357; 56832; 55357] in
  JSON.parse (stringify (JStr name)) = Some (JStr name).
Proof. reflexivity. Qed.

End WireFacts.

(** ** The receiver *)

Module Receiver.

Import WireFacts.

Lemma jsstring_eqb_eq (a b : jsstring) : jsstring_eqb a b = true <-> a = b.
Proof.
  revert b. induction a as [|x a IH]; intros [|y b]; cbn [jsstring_eqb];
    try (split; [discriminate | discriminate]); [split; reflexivity|].
  rewrite andb_true_iff, N.eqb_eq, IH. split.
  - intros [-> ->]. reflexivity.
  - intros E. inversion E. split; reflexivity.
Qed.

Lemma jsstring_eqb_refl (a : jsstring) : jsstring_eqb a a = true.
Proof. apply jsstring_eqb_eq. reflexivity. Qed.

(** The [try] body on a record whose [type] is ['file-meta']. *)
Lemma handle_string_file_meta (e : Env) (raw : jsstring) (h : Hook)
  (o : list (jsstring * json)) :
  JSON.parse raw = Some (JObj o) ->
  obj_get (js "type") o = Some (JStr (js "file-meta")) ->
  handle_string e raw h =
  Normal (set_fileReceiver
            (Some {| info := match obj_get (js "payload") o with
                             | Some p => Val p
                             | None => Undefined
                             end;
                     chunks := [] |}) h).
Proof.
  intros Hparse Htype. unfold handle_string. rewrite Hparse.
  cbn [get]. rewrite Htype. reflexivity.
Qed.

(** The [try] body on a record whose [type] is ['file-end'], with a
    transfer in flight whose [info.type] can be read and converted. *)
Lemma handle_string_file_end (e : Env) (raw : jsstring) (h : Hook)
  (o : list (jsstring * json)) (r : FileReceiver) (blob_ty : jsval) :
  JSON.parse raw = Some (JObj o) ->
  obj_get (js "type") o = Some (JStr (js "file-end")) ->
  fileReceiver h = Some r ->
  get (info r) (js "type") = Some blob_ty ->
  DOMString_throws blob_ty = false ->
  handle_string e raw h =
  Normal
    (set_fileReceiver None
       (setReceivedMessages
          (fun prev => prev ++
             [FileEntry {| fm_id := randomUUID e; fm_sender := peer;
                           fm_timestamp := now e; fm_fileInfo := info r;
                           fm_downloadUrl := createObjectURL e |}])
          (set_objectURLs
             (objectURLs h ++
                [(createObjectURL e,
                  {| blob_bytes := List.concat (chunks r);
                     blob_type := blob_ty |})]) h))).
Proof.
  intros Hparse Htype Hr Hty Hconv. unfold handle_string. rewrite Hparse.
  cbn [get]. rewrite Htype, Hr, Hty, Hconv. reflexivity.
Qed.

Lemma receive_binary (cs : list (Env * bytes)) :
  forall (rest : list (Env * MessageData)) (h : Hook) (r : FileReceiver),
    fileReceiver h = Some r ->
    receive (binary_messages cs ++ rest) h =
    receive rest
      (set_fileReceiver
         (Some {| info := info r; chunks := chunks r ++ map snd cs |}) h).
Proof.
  induction cs as [|[e b] cs IH]; intros rest h r Hr.
  - cbn [binary_messages map app]. rewrite app_nil_r.
    destruct h, r; cbn in *; subst; reflexivity.
  - cbn [binary_messages map app fst snd receive handleDataChannelMessage].
    rewrite Hr. fold (binary_messages cs).
    rewrite IH with (r := {| info := info r; chunks := chunks r ++ [b] |})
      by reflexivity.
    cbn [info chunks]. rewrite <- app_assoc. reflexivity.
Qed.

Lemma receive_binary_idle (cs : list (Env * bytes)) :
  forall (rest : list (Env * MessageData)) (h : Hook),
    fileReceiver h = None ->
    receive (binary_messages cs ++ rest) h = receive rest h.
Proof.
  induction cs as [|[e b] cs IH]; intros rest h Hr; [reflexivity|].
  cbn [binary_messages map app fst snd receive handleDataChannelMessage].
  rewrite Hr. fold (binary_messages cs). apply IH. exact Hr.
Qed.

(** A file-meta record for [i] followed by binary frames: the transfer
    state holds [i] as an object and the frames in the order they came. *)
Lemma receive_meta_then_binary (i : FileInfo) (cs : list (Env * bytes))
  (e0 : Env) (rest : list (Env * MessageData)) (h : Hook) :
  receive ((e0, DataString (stringify (FileMetaMessage i)))
             :: binary_messages cs ++ rest) h =
  receive rest
    (set_fileReceiver
       (Some {| info := Val (FileInfo_object i); chunks := map snd cs |}) h).
Proof.
  cbn [receive handleDataChannelMessage].
  rewrite (handle_string_file_meta e0 _ h _ (parse_stringify_file_meta i) eq_refl).
  change (obj_get (js "payload") _) with (Some (FileInfo_object i)).
  cbv iota.
  rewrite receive_binary
    with (r := {| info := Val (FileInfo_object i); chunks := [] |})
    by reflexivity.
  reflexivity.
Qed.

(** The state after a file-meta record for [i], binary frames and a
    file-end record. *)
Lemma receive_file_sequence (i : FileInfo) (cs : list (Env * bytes))
  (e0 e : Env) (h : Hook) :
  receive ((e0, DataString (stringify (FileMetaMessage i)))
             :: binary_messages cs
             ++ [(e, DataString (stringify FileEndMessage))]) h =
  Normal
    (set_fileReceiver None
       (setReceivedMessages
          (fun prev => prev ++
             [FileEntry {| fm_id := randomUUID e; fm_sender := peer;
                           fm_timestamp := now e;
                           fm_fileInfo := Val (FileInfo_object i);
                           fm_downloadUrl := createObjectURL e |}])
          (set_objectURLs
             (objectURLs h ++
                [(createObjectURL e,
                  {| blob_bytes := List.concat (map snd cs);
                     blob_type := Val (JStr (fi_type i)) |})]) h))).
Proof.
  rewrite receive_meta_then_binary.
  cbn [receive handleDataChannelMessage].
  erewrite handle_string_file_end;
    [ | apply parse_stringify_file_end | reflexivity | reflexivity | reflexivity
      | reflexivity].
  reflexivity.
Qed.

(** C2. A file-meta record for [i], then binary frames, then a file-end
    record: the handler returns normally; the log is the old log and
    exactly one more entry, a FileMessage from the peer whose [fileInfo] is
    the object [{name, size, type}] that was encoded; the object URL of
    that entry addresses a blob that is the concatenation of the frames in
    arrival order, built with [i]'s type; the transfer state is cleared and
    nothing else changes. *)
Theorem file_sequence_received (i : FileInfo) (cs : list (Env * bytes))
  (e0 e : Env) (h : Hook) :
  exists h',
    receive ((e0, DataString (stringify (FileMetaMessage i)))
               :: binary_messages cs
               ++ [(e, DataString (stringify FileEndMessage))]) h = Normal h' /\
    receivedMessages h' =
      receivedMessages h ++
        [FileEntry {| fm_id := randomUUID e; fm_sender := peer;
                      fm_timestamp := now e;
                      fm_fileInfo := Val (FileInfo_object i);
                      fm_downloadUrl := createObjectURL e |}] /\
    objectURLs h' =
      objectURLs h ++
        [(createObjectURL e,
          {| blob_bytes := List.concat (map snd cs);
             blob_type := Val (JStr (fi_type i)) |})] /\
    fileReceiver h' = None /\
    connectionState h' = connectionState h /\
    errorMessage h' = errorMessage h /\
    pc h' = pc h /\ dc h' = dc h.
Proof.
  eexists. split; [apply receive_file_sequence|].
  repeat split.
Qed.

(** C6. A string frame that [JSON.parse] rejects: the handler returns
    normally and the log is the old log and exactly one more entry, a text
    message from the peer whose content is the whole frame; the transfer
    state, the object URLs and the session are as they were.  And whatever
    arrives, the handler returns normally. *)
Theorem unparsable_frame_is_text :
  (forall (e : Env) (raw : jsstring) (h : Hook),
      JSON.parse raw = None ->
      exists h',
        handleDataChannelMessage e (DataString raw) h = Normal h' /\
        receivedMessages h' =
          receivedMessages h ++
            [TextEntry [(js "type", JStr (js "text"));
                        (js "id", JStr (randomUUID e));
                        (js "content", JStr raw);
                        (js "sender", JStr (js "peer"));
                        (js "timestamp", JNum (Z.of_N (now e)) 0)]] /\
        fileReceiver h' = fileReceiver h /\
        objectURLs h' = objectURLs h /\
        connectionState h' = connectionState h /\
        errorMessage h' = errorMessage h /\
        pc h' = pc h /\ dc h' = dc h)
  /\ (forall (e : Env) (data : MessageData) (h : Hook),
        exists h', handleDataChannelMessage e data h = Normal h').
Proof.
  split.
  - intros e raw h Hparse. eexists. split.
    + cbn [handleDataChannelMessage]. unfold handle_string.
      rewrite Hparse. reflexivity.
    + repeat split.
  - intros e [raw|b|] h; cbn [handleDataChannelMessage].
    + destruct (handle_string e raw h); eexists; reflexivity.
    + destruct (fileReceiver h); eexists; reflexivity.
    + eexists; reflexivity.
Qed.

Lemma unparsable_frame_is_text_witness :
  exists h',
    handleDataChannelMessage env0 (DataString (js "hello there")) receiving
      = Normal h' /\
    receivedMessages h' =
      receivedMessages receiving ++
        [TextEntry [(js "type", JStr (js "text"));
                    (js "id", JStr (randomUUID env0));
                    (js "content", JStr (js "hello there"));
                    (js "sender", JStr (js "peer"));
                    (js "timestamp", JNum (Z.of_N (now env0)) 0)]] /\
    fileReceiver h' = fileReceiver receiving.
Proof.
  destruct (proj1 unparsable_frame_is_text env0 (js "hello there") receiving)
    as (h' & Hrun & Hlog & Hfr & _); [reflexivity|].
  exists h'. split; [exact Hrun|]. split; [exact Hlog | exact Hfr].
Defined.

(** C7. A file-meta record makes the transfer state exactly
    [{info: payload, chunks: []}], whatever it was before, and leaves the
    log (and everything else) as it is. *)
Theorem file_meta_replaces_transfer (e : Env) (raw : jsstring) (h : Hook)
  (o : list (jsstring * json)) :
  JSON.parse raw = Some (JObj o) ->
  obj_get (js "type") o = Some (JStr (js "file-meta")) ->
  exists h',
    handleDataChannelMessage e (DataString raw) h = Normal h' /\
    fileReceiver h' = Some {| info := payload_of o; chunks := [] |} /\
    receivedMessages h' = receivedMessages h /\
    h' = set_fileReceiver (fileReceiver h') h.
Proof.
  intros Hparse Htype. eexists. split.
  - cbn [handleDataChannelMessage].
    rewrite (handle_string_file_meta e raw h o Hparse Htype). reflexivity.
  - repeat split.
Qed.

Lemma file_meta_replaces_transfer_witness :
  exists h',
    handleDataChannelMessage env0
      (DataString (stringify (FileMetaMessage notes_info))) receiving = Normal h' /\
    fileReceiver h' = Some {| info := Val (FileInfo_object notes_info); chunks := [] |} /\
    receivedMessages h' = receivedMessages receiving /\
    h' = set_fileReceiver (fileReceiver h') receiving.
Proof.
  apply (file_meta_replaces_transfer env0
           (stringify (FileMetaMessage notes_info)) receiving
           [(js "type", JStr (js "file-meta"));
            (js "payload", FileInfo_object notes_info)]);
    reflexivity.
Defined.

(** C8. A file-end record while no transfer is in flight changes nothing. *)
Theorem file_end_without_transfer (e : Env) (raw : jsstring) (h : Hook)
  (o : list (jsstring * json)) :
  JSON.parse raw = Some (JObj o) ->
  obj_get (js "type") o = Some (JStr (js "file-end")) ->
  fileReceiver h = None ->
  handleDataChannelMessage e (DataString raw) h = Normal h.
Proof.
  intros Hparse Htype Hidle. cbn [handleDataChannelMessage].
  unfold handle_string. rewrite Hparse. cbn [get]. rewrite Htype, Hidle.
  reflexivity.
Qed.

Lemma file_end_without_transfer_witness :
  handleDataChannelMessage env0 (DataString (stringify FileEndMessage)) initial =
  Normal initial.
Proof.
  apply (file_end_without_transfer env0 (stringify FileEndMessage) initial
           [(js "type", JStr (js "file-end"))]);
    reflexivity.
Defined.

(** C9. Binary frames delivered in a row: the handler returns normally
    every time.  With a transfer in flight the chunks of the transfer state
    are then the chunks it held followed by the frames in the order they
    arrived, under the same [info]; with none the state is left as it is.
    Either way nothing is logged and no object URL is made. *)
Theorem binary_frames_in_arrival_order (cs : list (Env * bytes)) (h : Hook) :
  exists h',
    receive (binary_messages cs) h = Normal h' /\
    fileReceiver h' =
      match fileReceiver h with
      | Some r => Some {| info := info r; chunks := chunks r ++ map snd cs |}
      | None => None
      end /\
    receivedMessages h' = receivedMessages h /\
    objectURLs h' = objectURLs h /\
    connectionState h' = connectionState h /\
    (fileReceiver h = None -> h' = h).
Proof.
  rewrite <- (app_nil_r (binary_messages cs)).
  destruct (fileReceiver h) as [r|] eqn:Hr.
  - rewrite (receive_binary cs [] h r Hr). eexists. split; [reflexivity|].
    repeat split. discriminate.
  - rewrite (receive_binary_idle cs [] h Hr). exists h.
    split; [reflexivity|]. repeat split. exact Hr.
Qed.

(** C10, as stated, fails on the frame [null]: it is valid JSON without a
    type, yet reading its [type] throws inside the [try] and the [catch]
    logs the frame as text. *)
Lemma null_frame_is_logged :
  JSON.parse (js "null") = Some JNull /\
  known_type JNull = false /\
  handleDataChannelMessage env0 (DataString (js "null")) initial =
    Normal (setReceivedMessages
              (fun prev => prev ++ [TextEntry (fallback_text env0 (js "null"))])
              initial) /\
  handleDataChannelMessage env0 (DataString (js "null")) initial <> Normal initial.
Proof. repeat split. discriminate. Qed.

(** C10, amended. A string frame that parses to a JSON value other than
    [null] whose type is none of the three record types is dropped: the
    state, log and transfer state included, is unchanged. *)
Theorem unknown_record_is_dropped (e : Env) (raw : jsstring) (h : Hook)
  (message : json) :
  JSON.parse raw = Some message ->
  message <> JNull ->
  known_type message = false ->
  handleDataChannelMessage e (DataString raw) h = Normal h.
Proof.
  intros Hparse Hnull Hknown. cbn [handleDataChannelMessage].
  unfold handle_string. rewrite Hparse.
  unfold known_type in Hknown.
  destruct (get (Val message) (js "type")) as [type|] eqn:Hget.
  - apply orb_false_iff in Hknown as [Hknown Hend].
    apply orb_false_iff in Hknown as [Htext Hmeta].
    rewrite Hmeta, Hend, Htext. reflexivity.
  - destruct message; try discriminate. contradiction.
Qed.

Lemma unknown_record_is_dropped_witness :
  handleDataChannelMessage env0 (DataString (stringify ping_record)) receiving =
  Normal receiving.
Proof.
  apply (unknown_record_is_dropped env0 _ receiving ping_record).
  - reflexivity.
  - discriminate.
  - reflexivity.
Defined.

End Receiver.

(** ** The session *)

Module Session.

Lemma resetState_releases (h : Hook) :
  connectionState (resetState h) = disconnected /\
  dc (resetState h) = None /\ pc (resetState h) = None /\
  fileReceiver (resetState h) = None /\ receivedMessages (resetState h) = [].
Proof. repeat split. Qed.

(** C4, as stated, fails: an offerer whose connection then fails is in
    Failed with the channel of the offer still in [dc.current]. *)
Lemma failed_session_keeps_channel :
  let h := run [call_createOffer host_ok; ev_connectionstatechange true] initial in
  connectionState h = failed /\ dc h = Some new_channel /\ dc h <> None.
Proof. repeat split. discriminate. Qed.

Ltac completion_cases :=
  repeat match goal with
    | H : Normal _ = Normal _ |- _ => inversion H; subst; clear H
    | H : Throw _ = Throw _ |- _ => inversion H; subst; clear H
    | H : Throw _ = Normal _ |- _ => discriminate H
    | H : Normal _ = Throw _ |- _ => discriminate H
    | H : context [match ?x with _ => _ end] |- _ => destruct x eqn:?
    end.

Lemma sendChunk_connectionState (e : Env) (b : N) (job : SendJob) (h h' : Hook) :
  sendChunk e b job h = Normal h' -> connectionState h' = connectionState h.
Proof. unfold sendChunk. intros H. completion_cases; reflexivity. Qed.

Lemma handle_connectionState (e : Env) (data : MessageData) (h h' : Hook) :
  handleDataChannelMessage e data h = Normal h' ->
  connectionState h' = connectionState h.
Proof.
  unfold handleDataChannelMessage, handle_string. intros H.
  completion_cases; reflexivity.
Qed.

(** C4, amended. A reset, explicit or by the channel's close event, takes
    the session to Disconnected with the channel handle and the connection
    handle released.  A transition into Failed releases nothing: the
    channel handle is what it was, and it is null afterwards only where
    [createAnswer] found no connection handle and reset first. *)
Theorem channel_handle_on_reset_and_failure :
  (forall (a : Action) (h : Hook),
      a = call_resetConnection \/ a = ev_close ->
      exists h', perform a h = Normal h' /\
        connectionState h' = disconnected /\ dc h' = None /\ pc h' = None)
  /\
  (forall (a : Action) (h h' : Hook),
      perform a h = Normal h' ->
      connectionState h' = failed -> connectionState h <> failed ->
      dc h' = dc h \/ (pc h = None /\ dc h' = None)).
Proof.
  split.
  - intros a h [-> | ->]; eexists; repeat split.
  - intros a h h' Hstep Hfailed Hbefore.
    destruct a; cbn [perform] in Hstep.
    + unfold createOffer in Hstep. completion_cases; discriminate.
    + unfold createAnswer, createAnswer_try in Hstep.
      destruct (pc h) as [p|] eqn:Hpc.
      * left. unfold set_remoteDescription, set_localDescription in Hstep.
        completion_cases; cbn in *; try reflexivity; congruence.
      * right. split; [reflexivity|].
        completion_cases; reflexivity.
    + unfold setRemoteAnswer, setRemoteAnswer_try in Hstep.
      left. unfold set_remoteDescription in Hstep.
      completion_cases; cbn in *; try reflexivity; congruence.
    + unfold sendText in Hstep. completion_cases; cbn in *; congruence.
    + unfold sendFile in Hstep. completion_cases; cbn in *; congruence.
    + inversion Hstep; subst. discriminate.
    + inversion Hstep; subst. discriminate.
    + inversion Hstep; subst. discriminate.
    + apply handle_connectionState in Hstep. congruence.
    + inversion Hstep; subst. destruct is_failed; [left; reflexivity | contradiction].
    + inversion Hstep; subst. cbn in *. contradiction.
    + inversion Hstep; subst. unfold onicecandidate in *.
      completion_cases; cbn in *; contradiction.
    + unfold reader_onload in Hstep. destruct (readers h); [congruence|].
      apply sendChunk_connectionState in Hstep. cbn in *. congruence.
    + unfold timeout in Hstep. destruct (timers h); [congruence|].
      apply sendChunk_connectionState in Hstep. cbn in *. congruence.
    + unfold bufferedamountlow in Hstep.
      destruct (dc h) as [ch|]; [|congruence].
      destruct (onbufferedamountlow ch); [|congruence].
      apply sendChunk_connectionState in Hstep. cbn in *. congruence.
Qed.

Lemma channel_handle_on_reset_and_failure_witness :
  let h := run [call_createOffer host_ok] initial in
  (exists h', perform ev_close h = Normal h' /\
     connectionState h' = disconnected /\ dc h' = None /\ pc h' = None)
  /\ (dc (onconnectionstatechange true h) = dc h \/
      (pc h = None /\ dc (onconnectionstatechange true h) = None)).
Proof.
  split.
  - apply (proj1 channel_handle_on_reset_and_failure ev_close). right. reflexivity.
  - apply (proj2 channel_handle_on_reset_and_failure
             (ev_connectionstatechange true)
             (run [call_createOffer host_ok] initial)).
    + reflexivity.
    + reflexivity.
    + discriminate.
Defined.

(** C5, as stated, fails for [setRemoteAnswer] without a connection
    handle: the call returns at its guard and a blob that does not parse
    changes nothing. *)
Lemma setRemoteAnswer_without_connection :
  JSON.parse (js "not a session description") = None /\
  remote_rejected host_ok (js "not a session description") = true /\
  setRemoteAnswer host_ok (js "not a session description") initial = Normal initial /\
  connectionState initial = disconnected /\ errorMessage initial = None.
Proof. repeat split. Qed.

(** C5, amended. A blob whose parsing or application fails takes
    [createAnswer], and [setRemoteAnswer] when a connection handle exists,
    to Failed with the diagnostic of the call, which is not empty; both
    calls return normally on every input; and [setRemoteAnswer] without a
    connection handle changes nothing, whatever the blob. *)
Theorem rejected_blob_fails_session :
  (forall (n : Negotiation) (blob : jsstring) (h : Hook),
      remote_rejected n blob = true ->
      exists h', createAnswer n blob h = Normal h' /\
        connectionState h' = failed /\
        errorMessage h' = Some invalid_offer_message)
  /\
  (forall (n : Negotiation) (blob : jsstring) (h : Hook),
      pc h <> None ->
      remote_rejected n blob = true ->
      exists h', setRemoteAnswer n blob h = Normal h' /\
        connectionState h' = failed /\
        errorMessage h' = Some invalid_answer_message)
  /\ invalid_offer_message <> [] /\ invalid_answer_message <> []
  /\ (forall (n : Negotiation) (blob : jsstring) (h : Hook),
        (exists h', createAnswer n blob h = Normal h') /\
        (exists h', setRemoteAnswer n blob h = Normal h'))
  /\ (forall (n : Negotiation) (blob : jsstring) (h : Hook),
        pc h = None -> setRemoteAnswer n blob h = Normal h).
Proof.
  repeat split.
  - intros n blob h Hrej. unfold remote_rejected in Hrej.
    unfold createAnswer, createAnswer_try.
    destruct (JSON.parse blob) as [d|].
    + apply negb_true_iff in Hrej. rewrite Hrej.
      eexists. repeat split.
    + eexists. repeat split.
  - intros n blob h Hpc Hrej. unfold remote_rejected in Hrej.
    unfold setRemoteAnswer, setRemoteAnswer_try.
    destruct (pc h) as [p|]; [|contradiction].
    destruct (JSON.parse blob) as [d|].
    + apply negb_true_iff in Hrej. rewrite Hrej.
      eexists. repeat split.
    + eexists. repeat split.
  - discriminate.
  - discriminate.
  - unfold createAnswer.
    destruct (createAnswer_try n blob _); eexists; reflexivity.
  - unfold setRemoteAnswer.
    destruct (pc h); [|eexists; reflexivity].
    destruct (setRemoteAnswer_try n blob h); eexists; reflexivity.
  - intros n blob h Hpc. unfold setRemoteAnswer. rewrite Hpc. reflexivity.
Qed.

Lemma rejected_blob_fails_session_witness :
  (exists h', createAnswer host_ok (js "not a session description") initial
              = Normal h' /\
     connectionState h' = failed /\
     errorMessage h' = Some invalid_offer_message)
  /\
  (exists h', setRemoteAnswer host_ok (js "not a session description")
                (run [call_createOffer host_ok] initial) = Normal h' /\
     connectionState h' = failed /\
     errorMessage h' = Some invalid_answer_message)
  /\
  setRemoteAnswer host_ok
    (stringify (description_object {| sd_type := js "answer"; sd_sdp := js "v=0" |}))
    (run [ev_message env0 (DataString (js "hello"))] initial)
  = Normal (run [ev_message env0 (DataString (js "hello"))] initial).
Proof.
  destruct rejected_blob_fails_session
    as (Hanswer & Hremote & _ & _ & _ & Hguard).
  split; [|split].
  - apply Hanswer. reflexivity.
  - apply Hremote; [discriminate | reflexivity].
  - apply Hguard. reflexivity.
Defined.

End Session.

(** ** The file sender *)

Module FileSender.

Local Open Scope N_scope.

(** *** Slices and chunks *)

Lemma byteLength_slice (buffer : bytes) (a b : N) :
  byteLength (slice buffer a b) = N.min (b - a) (byteLength buffer - a).
Proof.
  unfold byteLength, slice. rewrite length_firstn, length_skipn.
  destruct (N.min_spec (b - a) (N.of_nat (List.length buffer) - a)) as [[? ->]|[? ->]];
    destruct (Nat.min_spec (N.to_nat (b - a)) (List.length buffer - N.to_nat a))
      as [[? ->]|[? ->]]; lia.
Qed.

(** Names the quotient and remainder of [a] by the chunk size, with the
    facts that define them. *)
Ltac divide_by_chunk a :=
  let q := fresh "q" in
  let r := fresh "r" in
  pose proof (N.div_mod a 16384 ltac:(discriminate));
  pose proof (N.mod_lt a 16384 ltac:(discriminate));
  set (q := a / 16384) in *; set (r := a mod 16384) in *;
  clearbody q r.

Lemma chunk_count_bounds (size : N) :
  size <= chunk_count size * CHUNK_SIZE < size + CHUNK_SIZE.
Proof.
  unfold chunk_count, CHUNK_SIZE.
  divide_by_chunk (size + 16384 - 1). lia.
Qed.


Lemma chunks_upto_S (buffer : bytes) (k : nat) :
  chunks_upto buffer (S k) =
  chunks_upto buffer k ++ [chunk_at buffer (N.of_nat k)].
Proof. unfold chunks_upto. rewrite seq_S, map_app. reflexivity. Qed.



(** *** One continuation of a transfer *)

Ltac hook_simpl :=
  cbn [connectionState receivedMessages offerSdp answerSdp errorMessage pc dc
       fileReceiver objectURLs readers timers
       setConnectionState setReceivedMessages setOfferSdp setAnswerSdp
       setErrorMessage set_pc set_dc set_fileReceiver set_objectURLs
       set_readers set_timers
       readyState bufferedAmountLowThreshold onbufferedamountlow sent
       set_onbufferedamountlow send is_open job_file job_offset app].

Lemma offset_before_end (size : N) (k : nat) :
  N.of_nat k < chunk_count size ->
  N.min (N.of_nat k * CHUNK_SIZE) size = N.of_nat k * CHUNK_SIZE /\
  N.of_nat k * CHUNK_SIZE < size.
Proof.
  intros Hk. pose proof (chunk_count_bounds size) as Hb.
  unfold CHUNK_SIZE in *. lia.
Qed.

Lemma offset_at_end (size : N) (k : nat) :
  chunk_count size <= N.of_nat k ->
  N.min (N.of_nat k * CHUNK_SIZE) size = size.
Proof.
  intros Hk. pose proof (chunk_count_bounds size) as Hb.
  unfold CHUNK_SIZE in *. lia.
Qed.

Lemma offset_next (buffer : bytes) (k : nat) :
  N.of_nat k < chunk_count (byteLength buffer) ->
  N.of_nat k * CHUNK_SIZE + byteLength (chunk_at buffer (N.of_nat k)) =
  N.min (N.of_nat (S k) * CHUNK_SIZE) (byteLength buffer).
Proof.
  intros Hk. unfold chunk_at. rewrite byteLength_slice.
  pose proof (chunk_count_bounds (byteLength buffer)) as Hb.
  unfold CHUNK_SIZE in *. lia.
Qed.

(** [sendChunk] with a chunk left and the channel below its threshold. *)
Lemma sendChunk_go (e : Env) (b : N) (file : File) (k : nat) (h : Hook)
  (ch : RTCDataChannel) :
  dc h = Some ch -> is_open ch = true ->
  N.of_nat k < chunk_count (file_size file) ->
  b <= bufferedAmountLowThreshold ch ->
  sendChunk e b
    {| job_file := file;
       job_offset := N.min (N.of_nat k * CHUNK_SIZE) (file_size file) |} h =
  Normal
    (set_timers
       (timers h ++
          [{| job_file := file;
              job_offset := N.min (N.of_nat (S k) * CHUNK_SIZE) (file_size file) |}])
       (set_dc
          (Some {| readyState := readyState ch;
                   bufferedAmountLowThreshold := bufferedAmountLowThreshold ch;
                   onbufferedamountlow := onbufferedamountlow ch;
                   sent := sent ch ++ [FBinary (chunk_at (file_bytes file) (N.of_nat k))] |})
          h)).
Proof.
  intros Hdc Hopen Hk Hb. unfold sendChunk. hook_simpl.
  destruct (offset_before_end (file_size file) k Hk) as [Hmin Hlt].
  rewrite Hmin, Hdc.
  destruct (N.leb_spec (byteLength (file_bytes file)) (N.of_nat k * CHUNK_SIZE));
    [unfold file_size in Hlt; lia|].
  destruct (N.ltb_spec (bufferedAmountLowThreshold ch) b); [lia|].
  unfold is_open in Hopen. unfold send.
  destruct (readyState ch); try discriminate.
  fold (chunk_at (file_bytes file) (N.of_nat k)).
  rewrite (offset_next (file_bytes file) k Hk). reflexivity.
Qed.

(** [sendChunk] with a chunk left and the channel above its threshold. *)
Lemma sendChunk_wait (e : Env) (b : N) (job : SendJob) (h : Hook)
  (ch : RTCDataChannel) :
  dc h = Some ch ->
  job_offset job < byteLength (file_bytes (job_file job)) ->
  bufferedAmountLowThreshold ch < b ->
  sendChunk e b job h =
  Normal (set_dc (Some (set_onbufferedamountlow (Some job) ch)) h).
Proof.
  intros Hdc Hoff Hb. unfold sendChunk. rewrite Hdc.
  destruct (N.leb_spec (byteLength (file_bytes (job_file job))) (job_offset job));
    [lia|].
  destruct (N.ltb_spec (bufferedAmountLowThreshold ch) b); [|lia].
  reflexivity.
Qed.

(** [sendChunk] with nothing left. *)
Lemma sendChunk_end (e : Env) (b : N) (job : SendJob) (h : Hook)
  (ch : RTCDataChannel) :
  dc h = Some ch -> is_open ch = true ->
  byteLength (file_bytes (job_file job)) <= job_offset job ->
  sendChunk e b job h =
  Normal
    (setReceivedMessages
       (fun prev => prev ++
          [FileEntry {| fm_id := randomUUID e; fm_sender := me;
                        fm_timestamp := now e;
                        fm_fileInfo := Val (FileInfo_object (fileInfo_of (job_file job)));
                        fm_downloadUrl := createObjectURL e |}])
       (set_objectURLs
          (objectURLs h ++ [(createObjectURL e, blob_of_file (job_file job))])
          (set_dc
             (Some {| readyState := readyState ch;
                      bufferedAmountLowThreshold := bufferedAmountLowThreshold ch;
                      onbufferedamountlow := onbufferedamountlow ch;
                      sent := sent ch ++ [FText (stringify FileEndMessage)] |})
             h))).
Proof.
  intros Hdc Hopen Hoff. unfold sendChunk. rewrite Hdc.
  destruct (N.leb_spec (byteLength (file_bytes (job_file job))) (job_offset job));
    [|lia].
  unfold is_open in Hopen. unfold send.
  destruct (readyState ch); try discriminate. reflexivity.
Qed.

(** *** The transfer, continuation by continuation *)

Lemma sent_snoc (base : list Frame) (m : Frame) (buffer : bytes) (k : nat) :
  (base ++ m :: map FBinary (chunks_upto buffer k))
    ++ [FBinary (chunk_at buffer (N.of_nat k))] =
  base ++ m :: map FBinary (chunks_upto buffer (S k)).
Proof. rewrite chunks_upto_S, map_app, <- app_assoc. reflexivity. Qed.

Lemma first_offset (size : N) : N.min (N.of_nat 0 * CHUNK_SIZE) size = 0.
Proof. apply N.min_0_l. Qed.

Section Transfer.

Variables (e : Env) (h : Hook) (ch : RTCDataChannel) (file : File).

Let n : N := chunk_count (file_size file).

Lemma sendFile_starts :
  dc h = Some ch -> is_open ch = true -> onbufferedamountlow ch = None ->
  readers h = [] -> timers h = [] ->
  sendFile file h = Normal (sending h ch file 0 by_load).
Proof.
  intros Hdc Hopen Hslot Hreaders Htimers. unfold sendFile, sending.
  rewrite Hdc, Hopen. unfold send. unfold is_open in Hopen.
  destruct ch as [rs thr slot out]. destruct h. cbn in *. subst.
  destruct rs; try discriminate. reflexivity.
Qed.

Lemma pump_step_go (b : N) (k : nat) (p : Pending) :
  (p = by_load -> k = 0%nat) ->
  N.of_nat k < n -> b <= bufferedAmountLowThreshold ch ->
  pump_step e b (sending h ch file k p) = Normal (sending h ch file (S k) by_timer).
Proof.
  intros Hp Hk Hb. destruct p; unfold pump_step, sending; hook_simpl.
  - rewrite (Hp eq_refl) in *. unfold reader_onload. hook_simpl.
    rewrite <- (first_offset (file_size file)) at 1.
    rewrite sendChunk_go with (ch := {| readyState := rs_open;
        bufferedAmountLowThreshold := bufferedAmountLowThreshold ch;
        onbufferedamountlow := None;
        sent := sent ch ++ FText (stringify (FileMetaMessage (fileInfo_of file)))
                :: map FBinary (chunks_upto (file_bytes file) 0) |});
      try reflexivity; try assumption.
    hook_simpl. rewrite sent_snoc. reflexivity.
  - unfold timeout. hook_simpl.
    rewrite sendChunk_go with (ch := {| readyState := rs_open;
        bufferedAmountLowThreshold := bufferedAmountLowThreshold ch;
        onbufferedamountlow := None;
        sent := sent ch ++ FText (stringify (FileMetaMessage (fileInfo_of file)))
                :: map FBinary (chunks_upto (file_bytes file) k) |});
      try reflexivity; try assumption.
    hook_simpl. rewrite sent_snoc. reflexivity.
  - unfold bufferedamountlow. hook_simpl.
    rewrite sendChunk_go with (ch := {| readyState := rs_open;
        bufferedAmountLowThreshold := bufferedAmountLowThreshold ch;
        onbufferedamountlow := None;
        sent := sent ch ++ FText (stringify (FileMetaMessage (fileInfo_of file)))
                :: map FBinary (chunks_upto (file_bytes file) k) |});
      try reflexivity; try assumption.
    hook_simpl. rewrite sent_snoc. reflexivity.
Qed.

Lemma pump_step_wait (b : N) (k : nat) (p : Pending) :
  (p = by_load -> k = 0%nat) ->
  N.of_nat k < n -> bufferedAmountLowThreshold ch < b ->
  pump_step e b (sending h ch file k p) = Normal (sending h ch file k by_drain).
Proof.
  intros Hp Hk Hb.
  destruct (offset_before_end (file_size file) k Hk) as [Hmin Hlt].
  destruct p; unfold pump_step, sending; hook_simpl.
  - rewrite (Hp eq_refl) in *. unfold reader_onload. hook_simpl.
    rewrite first_offset in *.
    erewrite sendChunk_wait;
      [ | reflexivity | hook_simpl; unfold file_size in *; lia | assumption].
    reflexivity.
  - unfold timeout. hook_simpl.
    erewrite sendChunk_wait;
      [ | reflexivity | hook_simpl; rewrite Hmin; exact Hlt | assumption].
    reflexivity.
  - unfold bufferedamountlow. hook_simpl.
    erewrite sendChunk_wait;
      [ | reflexivity | hook_simpl; rewrite Hmin; exact Hlt | assumption].
    reflexivity.
Qed.

Lemma sent_end (base : list Frame) :
  (base ++ FText (stringify (FileMetaMessage (fileInfo_of file)))
        :: map FBinary (chunks_upto (file_bytes file) (N.to_nat n)))
    ++ [FText (stringify FileEndMessage)] =
  base ++ transfer_frames file.
Proof. rewrite <- app_assoc. reflexivity. Qed.

Lemma pump_step_end (b : N) (p : Pending) :
  (p = by_load -> n = 0) ->
  pump_step e b (sending h ch file (N.to_nat n) p) = Normal (sent_file e h ch file).
Proof.
  intros Hp.
  assert (Hmin : N.min (N.of_nat (N.to_nat n) * CHUNK_SIZE) (file_size file)
                 = file_size file) by (apply offset_at_end; subst n; lia).
  destruct p; unfold pump_step, sending; hook_simpl.
  - unfold reader_onload. hook_simpl.
    erewrite sendChunk_end; [ | reflexivity | reflexivity | ].
    + unfold sent_file. hook_simpl. rewrite sent_end. reflexivity.
    + hook_simpl. pose proof (chunk_count_bounds (file_size file)) as Hb.
      fold n in Hb. rewrite (Hp eq_refl) in Hb. unfold file_size in Hb. lia.
  - unfold timeout. hook_simpl. rewrite Hmin.
    erewrite sendChunk_end; [ | reflexivity | reflexivity | ].
    + unfold sent_file. hook_simpl. rewrite sent_end. reflexivity.
    + hook_simpl. unfold file_size. lia.
  - unfold bufferedamountlow. hook_simpl. rewrite Hmin.
    erewrite sendChunk_end; [ | reflexivity | reflexivity | ].
    + unfold sent_file. hook_simpl. rewrite sent_end. reflexivity.
    + hook_simpl. unfold file_size. lia.
Qed.

Lemma pump_sent_file (readings : list N) :
  pump e readings (sent_file e h ch file) = Normal (sent_file e h ch file).
Proof. induction readings as [|b rest IH]; [reflexivity | exact IH]. Qed.

(** With enough readings at or below the threshold the transfer completes,
    however the other readings fall. *)
Lemma pump_completes (readings : list N) :
  forall (k : nat) (p : Pending),
    (p = by_load -> k = 0%nat) ->
    N.of_nat k <= n ->
    (N.to_nat n - k < go_count (bufferedAmountLowThreshold ch) readings)%nat ->
    pump e readings (sending h ch file k p) = Normal (sent_file e h ch file).
Proof.
  induction readings as [|b rest IH]; intros k p Hp Hk Hgo.
  - cbn in Hgo. lia.
  - cbn [pump]. destruct (N.eq_dec (N.of_nat k) n) as [Hend|Hmore].
    + replace k with (N.to_nat n) by lia.
      rewrite pump_step_end by (intros ->; specialize (Hp eq_refl); lia).
      apply pump_sent_file.
    + unfold go_count in Hgo. cbn [filter] in Hgo.
      destruct (N.leb_spec b (bufferedAmountLowThreshold ch)) as [Hb|Hb].
      * rewrite pump_step_go by (assumption || lia).
        apply IH; [discriminate | lia |].
        cbn [List.length] in Hgo. unfold go_count. lia.
      * rewrite pump_step_wait by (assumption || lia).
        apply IH; [discriminate | lia |]. exact Hgo.
Qed.

(** Whatever the readings, the transfer is at some chunk or complete: the
    channel never holds anything but a prefix of the frames of the file. *)
Lemma pump_stays_on_course (readings : list N) :
  forall (k : nat) (p : Pending),
    (p = by_load -> k = 0%nat) ->
    N.of_nat k <= n ->
    pump e readings (sending h ch file k p) = Normal (sent_file e h ch file) \/
    exists (k' : nat) (p' : Pending),
      N.of_nat k' <= n /\
      pump e readings (sending h ch file k p) = Normal (sending h ch file k' p').
Proof.
  induction readings as [|b rest IH]; intros k p Hp Hk.
  - right. exists k, p. split; [exact Hk | reflexivity].
  - cbn [pump]. destruct (N.eq_dec (N.of_nat k) n) as [Hend|Hmore].
    + left. replace k with (N.to_nat n) by lia.
      rewrite pump_step_end by (intros ->; specialize (Hp eq_refl); lia).
      apply pump_sent_file.
    + destruct (N.leb_spec b (bufferedAmountLowThreshold ch)) as [Hb|Hb].
      * rewrite pump_step_go by (assumption || lia).
        apply IH; [discriminate | lia].
      * rewrite pump_step_wait by (assumption || lia).
        apply IH; [discriminate | lia].
Qed.

End Transfer.

Lemma firstn_add (a m : nat) (l : bytes) :
  firstn (a + m) l = firstn a l ++ firstn m (skipn a l).
Proof.
  revert l. induction a as [|a IH]; intros l; [reflexivity|].
  destruct l as [|x l]; cbn [Nat.add firstn skipn app].
  - rewrite firstn_nil. reflexivity.
  - rewrite IH. reflexivity.
Qed.

Lemma concat_chunks_upto (buffer : bytes) (k : nat) :
  List.concat (chunks_upto buffer k) =
  firstn (k * N.to_nat CHUNK_SIZE) buffer.
Proof.
  induction k as [|k IH]; [reflexivity|].
  rewrite chunks_upto_S, concat_app, IH. cbn [List.concat]. rewrite app_nil_r.
  unfold chunk_at, slice.
  replace (N.to_nat (N.of_nat k * CHUNK_SIZE + CHUNK_SIZE - N.of_nat k * CHUNK_SIZE))
    with (N.to_nat CHUNK_SIZE) by lia.
  replace (N.to_nat (N.of_nat k * CHUNK_SIZE)) with (k * N.to_nat CHUNK_SIZE)%nat
    by lia.
  rewrite <- firstn_add. f_equal. lia.
Qed.

(** The chunks, one after the other, are the buffer. *)
Lemma concat_chunks_of (buffer : bytes) : List.concat (chunks_of buffer) = buffer.
Proof.
  unfold chunks_of. rewrite concat_chunks_upto. apply firstn_all2.
  pose proof (chunk_count_bounds (byteLength buffer)) as Hb.
  unfold byteLength in *. lia.
Qed.





(** C3. [sendChunk] with a chunk left and the channel above its
    threshold: nothing is sent and no timer is set; the call leaves itself
    in [onbufferedamountlow].  While it waits there a timer tick sends
    nothing.  The drain signal empties the slot and calls [sendChunk]
    once: if the channel is then at or below the threshold, exactly the
    next chunk is sent, the slot stays empty and a further drain signal
    does nothing. *)
Theorem backpressure_suspends_and_resumes_once (e : Env) (b : N) (job : SendJob)
  (h : Hook) (ch : RTCDataChannel) :
  dc h = Some ch ->
  job_offset job < byteLength (file_bytes (job_file job)) ->
  bufferedAmountLowThreshold ch < b ->
  let suspended := set_dc (Some (set_onbufferedamountlow (Some job) ch)) h in
  let chunk :=
    slice (file_bytes (job_file job)) (job_offset job)
      (job_offset job + CHUNK_SIZE) in
  sendChunk e b job h = Normal suspended /\
  (exists chs, dc suspended = Some chs /\ sent chs = sent ch /\
               onbufferedamountlow chs = Some job) /\
  timers suspended = timers h /\
  (timers h = [] ->
   forall e' b', timeout e' b' suspended = Normal suspended) /\
  (forall e' b',
      bufferedamountlow e' b' suspended =
      sendChunk e' b' job (set_dc (Some (set_onbufferedamountlow None ch)) h)) /\
  (is_open ch = true ->
   forall e' b', b' <= bufferedAmountLowThreshold ch ->
     exists h2 ch2,
       bufferedamountlow e' b' suspended = Normal h2 /\
       dc h2 = Some ch2 /\
       sent ch2 = sent ch ++ [FBinary chunk] /\
       onbufferedamountlow ch2 = None /\
       timers h2 = timers h ++
                   [{| job_file := job_file job;
                       job_offset := job_offset job + byteLength chunk |}] /\
       forall e'' b'', bufferedamountlow e'' b'' h2 = Normal h2).
Proof.
  intros Hdc Hoff Hb suspended chunk.
  split; [|split; [|split; [|split; [|split]]]].
  - apply sendChunk_wait; assumption.
  - eexists. repeat split.
  - reflexivity.
  - intros Htimers e' b'. unfold timeout. subst suspended. hook_simpl.
    rewrite Htimers. reflexivity.
  - intros e' b'. reflexivity.
  - intros Hopen e' b' Hb'. unfold bufferedamountlow. subst suspended.
    hook_simpl. unfold sendChunk. hook_simpl.
    destruct (N.leb_spec (byteLength (file_bytes (job_file job))) (job_offset job));
      [lia|].
    destruct (N.ltb_spec (bufferedAmountLowThreshold ch) b'); [lia|].
    unfold is_open in Hopen. unfold send. hook_simpl.
    destruct (readyState ch) eqn:Hrs; try discriminate.
    eexists. eexists.
    split; [reflexivity|]. split; [reflexivity|]. split; [reflexivity|].
    split; [reflexivity|]. split; [reflexivity|].
    intros e'' b''. reflexivity.
Qed.

Lemma backpressure_suspends_and_resumes_once_witness :
  let job := {| job_file := small_file; job_offset := 0 |} in
  let suspended :=
    set_dc (Some (set_onbufferedamountlow (Some job) open_channel)) open_session in
  sendChunk env0 5 job open_session = Normal suspended /\
  timeout env0 0 suspended = Normal suspended /\
  exists h2 ch2,
    bufferedamountlow env0 0 suspended = Normal h2 /\
    dc h2 = Some ch2 /\
    sent ch2 = [FBinary [x68; x69; x0a]] /\
    onbufferedamountlow ch2 = None /\
    bufferedamountlow env0 0 h2 = Normal h2.
Proof.
  destruct (backpressure_suspends_and_resumes_once env0 5
              {| job_file := small_file; job_offset := 0 |}
              open_session open_channel)
    as (Hwait & _ & _ & Htick & _ & Hdrain);
    [reflexivity | reflexivity | reflexivity |].
  destruct (Hdrain eq_refl env0 0) as (h2 & ch2 & H1 & H2 & H3 & H4 & _ & H6);
    [discriminate|].
  cbv zeta. split; [exact Hwait|]. split; [apply Htick; reflexivity|].
  exists h2, ch2. repeat split; try assumption. apply H6.
Defined.

End FileSender.

(** ** From one peer to the other *)

Module EndToEnd.

Import WireFacts Receiver FileSender.

(** The scenario of a 40000-byte file: three chunks of 16384, 16384 and
    7232 bytes. *)
Example chunks_of_40000 :
  map byteLength (chunks_of (file_bytes file_40000)) = [16384; 16384; 7232].
Proof. vm_compute. reflexivity. Qed.

(** A text sent by one peer is logged by the other as a text message from
    the peer with the same id, content and timestamp. *)
Theorem text_is_delivered (e e' : Env) (text : jsstring) (h : Hook) :
  handleDataChannelMessage e'
    (DataString (stringify (text_record (randomUUID e) text (now e)))) h =
  Normal (setReceivedMessages
            (fun prev => prev ++
               [TextEntry [(js "type", JStr (js "text"));
                           (js "id", JStr (randomUUID e));
                           (js "content", JStr text);
                           (js "timestamp", JNum (Z.of_N (now e)) 0);
                           (js "sender", JStr (js "peer"))]]) h).
Proof.
  cbn [handleDataChannelMessage]. unfold handle_string.
  rewrite parse_stringify_text_record. reflexivity.
Qed.

(** [sendText] on an open channel sends the record and logs it as mine. *)
Lemma sendText_sends (e : Env) (text : jsstring) (h : Hook)
  (ch : RTCDataChannel) :
  dc h = Some ch -> is_open ch = true ->
  exists h' ch',
    sendText e text h = Normal h' /\
    dc h' = Some ch' /\
    sent ch' = sent ch
               ++ [FText (stringify (text_record (randomUUID e) text (now e)))] /\
    receivedMessages h' =
      receivedMessages h ++
        [TextEntry [(js "type", JStr (js "text"));
                    (js "id", JStr (randomUUID e));
                    (js "content", JStr text);
                    (js "timestamp", JNum (Z.of_N (now e)) 0);
                    (js "sender", JStr (js "me"))]].
Proof.
  intros Hdc Hopen. unfold sendText. rewrite Hdc, Hopen.
  unfold send. unfold is_open in Hopen.
  destruct (readyState ch); try discriminate.
  eexists. eexists. repeat split.
Qed.

Lemma receive_delivered_binary (e : Env) (cs : list bytes) :
  map (delivered e) (map FBinary cs) = binary_messages (map (pair e) cs).
Proof.
  unfold binary_messages. rewrite !map_map. reflexivity.
Qed.

(** What a complete transfer puts on the channel, delivered to the peer in
    order, is logged there as one file whose content is the file sent. *)
Theorem file_is_delivered (e : Env) (file : File) (h : Hook) :
  receive (map (delivered e) (transfer_frames file)) h =
  Normal
    (set_fileReceiver None
       (setReceivedMessages
          (fun prev => prev ++
             [FileEntry {| fm_id := randomUUID e; fm_sender := peer;
                           fm_timestamp := now e;
                           fm_fileInfo := Val (FileInfo_object (fileInfo_of file));
                           fm_downloadUrl := createObjectURL e |}])
          (set_objectURLs
             (objectURLs h ++ [(createObjectURL e, blob_of_file file)]) h))).
Proof.
  unfold transfer_frames. cbn [map delivered].
  rewrite map_app, receive_delivered_binary. cbn [map delivered].
  rewrite receive_meta_then_binary.
  cbn [receive handleDataChannelMessage].
  erewrite handle_string_file_end;
    [ | apply parse_stringify_file_end | reflexivity | reflexivity | reflexivity
      | reflexivity].
  cbn [chunks info]. rewrite map_map. cbn [snd]. rewrite map_id, concat_chunks_of.
  reflexivity.
Qed.

End EndToEnd.

(** ** More on the receiver *)

Module ReceiverRuns.

Import WireFacts Receiver.

(** Case analysis on the innermost scrutinee first. *)
Ltac break_handler :=
  repeat match goal with
    | |- context [match ?x with _ => _ end] =>
        lazymatch x with
        | context [match _ with _ => _ end] => fail
        | _ => destruct x eqn:?
        end
    end.

(** What one message may change: at most one entry is appended to the
    log; the session fields and the sender's queues are not touched. *)
Lemma handle_step (e : Env) (d : MessageData) (h : Hook) :
  exists h' added,
    handleDataChannelMessage e d h = Normal h' /\
    receivedMessages h' = receivedMessages h ++ added /\
    (List.length added <= 1)%nat /\
    connectionState h' = connectionState h /\
    errorMessage h' = errorMessage h /\
    offerSdp h' = offerSdp h /\ answerSdp h' = answerSdp h /\
    pc h' = pc h /\ dc h' = dc h /\
    readers h' = readers h /\ timers h' = timers h.
Proof.
  unfold handleDataChannelMessage, handle_string.
  break_handler; subst;
    (eexists; eexists; split; [reflexivity|]; cbn;
     first [ split; [reflexivity|]; split; [cbn; lia|]; repeat split
           | split; [symmetry; apply app_nil_r|]; split; [cbn; lia|];
             repeat split ]).
Qed.

(** X7. Whatever is delivered, in whatever order, the handler returns
    normally every time, the log only grows at its end, by at most one
    entry per message, and the session state, the error, the descriptions,
    both handles and the sender's queues stay as they were. *)
Theorem receive_only_appends (msgs : list (Env * MessageData)) (h : Hook) :
  exists h' added,
    receive msgs h = Normal h' /\
    receivedMessages h' = receivedMessages h ++ added /\
    (List.length added <= List.length msgs)%nat /\
    connectionState h' = connectionState h /\
    errorMessage h' = errorMessage h /\
    offerSdp h' = offerSdp h /\ answerSdp h' = answerSdp h /\
    pc h' = pc h /\ dc h' = dc h /\
    readers h' = readers h /\ timers h' = timers h.
Proof.
  revert h. induction msgs as [|[e d] msgs IH]; intros h.
  - exists h, []. cbn. rewrite app_nil_r. repeat split. lia.
  - destruct (handle_step e d h)
      as (h1 & a1 & H1 & L1 & N1 & S1 & E1 & O1 & A1 & P1 & D1 & R1 & T1).
    destruct (IH h1)
      as (h2 & a2 & H2 & L2 & N2 & S2 & E2 & O2 & A2 & P2 & D2 & R2 & T2).
    exists h2, (a1 ++ a2). cbn [receive]. rewrite H1.
    split; [exact H2|].
    split; [rewrite L2, L1, app_assoc; reflexivity|].
    split; [rewrite length_app; cbn [List.length]; lia|].
    repeat split; congruence.
Qed.

Lemma jsstring_eqb_neq (a b : jsstring) : a <> b -> jsstring_eqb a b = false.
Proof.
  intros Hne. destruct (jsstring_eqb a b) eqn:E; [|reflexivity].
  apply jsstring_eqb_eq in E. contradiction.
Qed.

Lemma obj_get_set_same (k : jsstring) (v : json) (o : list (jsstring * json)) :
  obj_get k (obj_set k v o) = Some v.
Proof.
  induction o as [|[k' v'] o IH]; cbn [obj_set obj_get].
  - rewrite jsstring_eqb_refl. reflexivity.
  - destruct (jsstring_eqb k k') eqn:E; cbn [obj_get]; rewrite E;
      [reflexivity | exact IH].
Qed.

Lemma obj_get_set_other (k k' : jsstring) (v : json)
  (o : list (jsstring * json)) :
  k' <> k -> obj_get k' (obj_set k v o) = obj_get k' o.
Proof.
  intros Hne. induction o as [|[k0 v0] o IH]; cbn [obj_set obj_get].
  - rewrite (jsstring_eqb_neq _ _ Hne). reflexivity.
  - destruct (jsstring_eqb k k0) eqn:E; cbn [obj_get].
    + apply jsstring_eqb_eq in E. subst k0.
      rewrite (jsstring_eqb_neq _ _ Hne). reflexivity.
    + destruct (jsstring_eqb k' k0); [reflexivity | exact IH].
Qed.

(** X6. A text record from the peer is logged with [sender] set to
    ['peer'] whatever sender the record names, and with every other field
    exactly as received, present or not. *)
Theorem peer_text_keeps_fields_but_sender (e : Env) (raw : jsstring) (h : Hook)
  (o : list (jsstring * json)) :
  JSON.parse raw = Some (JObj o) ->
  obj_get (js "type") o = Some (JStr (js "text")) ->
  exists entry h',
    handleDataChannelMessage e (DataString raw) h = Normal h' /\
    receivedMessages h' = receivedMessages h ++ [TextEntry entry] /\
    obj_get (js "sender") entry = Some (JStr (js "peer")) /\
    (forall k, k <> js "sender" -> obj_get k entry = obj_get k o) /\
    fileReceiver h' = fileReceiver h /\
    objectURLs h' = objectURLs h.
Proof.
  intros Hparse Htype.
  exists (obj_set (js "sender") (JStr (js "peer")) o).
  assert (Hrun : handleDataChannelMessage e (DataString raw) h =
                 Normal (setReceivedMessages
                           (fun prev => prev ++
                              [TextEntry (obj_set (js "sender")
                                            (JStr (js "peer")) o)]) h)).
  { cbn [handleDataChannelMessage]. unfold handle_string.
    rewrite Hparse. cbn [get]. rewrite Htype.
    change (is_string _ (js "file-meta")) with false.
    change (is_string _ (js "file-end")) with false.
    change (is_string _ (js "text")) with true.
    cbv iota. destruct (fileReceiver h); reflexivity. }
  eexists. split; [exact Hrun|]. split; [reflexivity|].
  split; [apply obj_get_set_same|].
  split; [intros k Hk; apply obj_get_set_other; exact Hk|].
  split; reflexivity.
Qed.

Lemma peer_text_keeps_fields_but_sender_witness :
  exists entry h',
    handleDataChannelMessage env0
      (DataString (stringify (JObj spoofed_text))) receiving = Normal h' /\
    receivedMessages h' = receivedMessages receiving ++ [TextEntry entry] /\
    obj_get (js "sender") entry = Some (JStr (js "peer")) /\
    obj_get (js "content") entry = obj_get (js "content") spoofed_text /\
    fileReceiver h' = fileReceiver receiving.
Proof.
  destruct (peer_text_keeps_fields_but_sender env0
              (stringify (JObj spoofed_text)) receiving spoofed_text)
    as (entry & h' & Hrun & Hlog & Hsender & Hother & Hfr & _);
    try reflexivity.
  exists entry, h'. split; [exact Hrun|]. split; [exact Hlog|].
  split; [exact Hsender|]. split; [apply Hother; discriminate | exact Hfr].
Defined.

(** A text record leaves the transfer in flight alone. *)
Lemma handle_text_record (e : Env) (id content : jsstring) (timestamp : N)
  (h : Hook) :
  handleDataChannelMessage e
    (DataString (stringify (text_record id content timestamp))) h =
  Normal (setReceivedMessages
            (fun prev => prev ++
               [TextEntry [(js "type", JStr (js "text"));
                           (js "id", JStr id);
                           (js "content", JStr content);
                           (js "timestamp", JNum (Z.of_N timestamp) 0);
                           (js "sender", JStr (js "peer"))]]) h).
Proof.
  cbn [handleDataChannelMessage]. unfold handle_string.
  rewrite parse_stringify_text_record.
  cbn [get text_record obj_get].
  change (jsstring_eqb (js "type") (js "type")) with true. cbv iota.
  change (is_string _ (js "file-meta")) with false.
  change (is_string _ (js "file-end")) with false.
  change (is_string _ (js "text")) with true.
  cbv iota. destruct (fileReceiver h); reflexivity.
Qed.

(** The state after a file sequence with a text record between its
    chunks. *)
Lemma receive_text_between_chunks (i : FileInfo) (cs1 cs2 : list (Env * bytes))
  (e0 et e : Env) (id content : jsstring) (timestamp : N) (h : Hook) :
  receive ((e0, DataString (stringify (FileMetaMessage i)))
             :: binary_messages cs1
             ++ (et, DataString (stringify (text_record id content timestamp)))
             :: binary_messages cs2
             ++ [(e, DataString (stringify FileEndMessage))]) h =
  Normal
    (set_fileReceiver None
       (setReceivedMessages
          (fun prev => prev ++
             [TextEntry [(js "type", JStr (js "text"));
                         (js "id", JStr id);
                         (js "content", JStr content);
                         (js "timestamp", JNum (Z.of_N timestamp) 0);
                         (js "sender", JStr (js "peer"))];
              FileEntry {| fm_id := randomUUID e; fm_sender := peer;
                           fm_timestamp := now e;
                           fm_fileInfo := Val (FileInfo_object i);
                           fm_downloadUrl := createObjectURL e |}])
          (set_objectURLs
             (objectURLs h ++
                [(createObjectURL e,
                  {| blob_bytes := List.concat (map snd (cs1 ++ cs2));
                     blob_type := Val (JStr (fi_type i)) |})]) h))).
Proof.
  rewrite receive_meta_then_binary.
  cbn [receive]. rewrite handle_text_record.
  erewrite receive_binary by reflexivity.
  cbn [receive handleDataChannelMessage].
  erewrite handle_string_file_end;
    [ | apply parse_stringify_file_end | reflexivity | reflexivity | reflexivity
      | reflexivity].
  cbn [info chunks]. rewrite map_app.
  unfold setReceivedMessages, set_fileReceiver, set_objectURLs. cbn.
  rewrite <- app_assoc. reflexivity.
Qed.

(** X4. A text record that arrives between the chunks of a file is logged
    and does not disturb the transfer: after file-end the log is the old
    log, the text and then the file, the file's object URL addresses the
    concatenation of the chunks that came before and after the text, and
    the transfer state is cleared. *)
Theorem text_between_chunks (i : FileInfo) (cs1 cs2 : list (Env * bytes))
  (e0 et e : Env) (id content : jsstring) (timestamp : N) (h : Hook) :
  exists h',
    receive ((e0, DataString (stringify (FileMetaMessage i)))
               :: binary_messages cs1
               ++ (et, DataString (stringify (text_record id content timestamp)))
               :: binary_messages cs2
               ++ [(e, DataString (stringify FileEndMessage))]) h = Normal h' /\
    receivedMessages h' =
      receivedMessages h ++
        [TextEntry [(js "type", JStr (js "text"));
                    (js "id", JStr id);
                    (js "content", JStr content);
                    (js "timestamp", JNum (Z.of_N timestamp) 0);
                    (js "sender", JStr (js "peer"))];
         FileEntry {| fm_id := randomUUID e; fm_sender := peer;
                      fm_timestamp := now e;
                      fm_fileInfo := Val (FileInfo_object i);
                      fm_downloadUrl := createObjectURL e |}] /\
    objectURLs h' =
      objectURLs h ++
        [(createObjectURL e,
          {| blob_bytes := List.concat (map snd cs1) ++ List.concat (map snd cs2);
             blob_type := Val (JStr (fi_type i)) |})] /\
    fileReceiver h' = None.
Proof.
  eexists. split; [apply receive_text_between_chunks|].
  cbn [receivedMessages objectURLs fileReceiver set_fileReceiver
         setReceivedMessages set_objectURLs].
  rewrite map_app, concat_app. repeat split.
Qed.

(** The state after a file sequence that a second file-meta record
    interrupts. *)
Lemma receive_second_meta (i1 i2 : FileInfo) (cs1 cs2 : list (Env * bytes))
  (e1 e2 e : Env) (h : Hook) :
  receive ((e1, DataString (stringify (FileMetaMessage i1)))
             :: binary_messages cs1
             ++ (e2, DataString (stringify (FileMetaMessage i2)))
             :: binary_messages cs2
             ++ [(e, DataString (stringify FileEndMessage))]) h =
  Normal
    (set_fileReceiver None
       (setReceivedMessages
          (fun prev => prev ++
             [FileEntry {| fm_id := randomUUID e; fm_sender := peer;
                           fm_timestamp := now e;
                           fm_fileInfo := Val (FileInfo_object i2);
                           fm_downloadUrl := createObjectURL e |}])
          (set_objectURLs
             (objectURLs h ++
                [(createObjectURL e,
                  {| blob_bytes := List.concat (map snd cs2);
                     blob_type := Val (JStr (fi_type i2)) |})]) h))).
Proof.
  rewrite receive_meta_then_binary.
  rewrite receive_meta_then_binary.
  cbn [receive handleDataChannelMessage].
  erewrite handle_string_file_end;
    [ | apply parse_stringify_file_end | reflexivity | reflexivity | reflexivity
      | reflexivity].
  reflexivity.
Qed.

(** X8. Only the last file-meta counts: when a second file-meta arrives
    before the first file's file-end, the chunks received so far are
    dropped without a log entry; after file-end the log is the old log and
    one file, the second, whose object URL addresses only the chunks that
    came after the second file-meta, and the transfer state is cleared. *)
Theorem last_meta_wins (i1 i2 : FileInfo) (cs1 cs2 : list (Env * bytes))
  (e1 e2 e : Env) (h : Hook) :
  exists h',
    receive ((e1, DataString (stringify (FileMetaMessage i1)))
               :: binary_messages cs1
               ++ (e2, DataString (stringify (FileMetaMessage i2)))
               :: binary_messages cs2
               ++ [(e, DataString (stringify FileEndMessage))]) h = Normal h' /\
    receivedMessages h' =
      receivedMessages h ++
        [FileEntry {| fm_id := randomUUID e; fm_sender := peer;
                      fm_timestamp := now e;
                      fm_fileInfo := Val (FileInfo_object i2);
                      fm_downloadUrl := createObjectURL e |}] /\
    objectURLs h' =
      objectURLs h ++
        [(createObjectURL e,
          {| blob_bytes := List.concat (map snd cs2);
             blob_type := Val (JStr (fi_type i2)) |})] /\
    fileReceiver h' = None.
Proof.
  eexists. split; [apply receive_second_meta|].
  repeat split.
Qed.

(** X5. A file-meta record whose payload is missing or [null], or
    whose payload has a [type] that cannot be converted to a string, starts
    a transfer that file-end cannot finish: reading [info.type], or
    building the blob with it, throws inside the [try].  The log is then
    the old log and the file-end frame itself as a text message from the
    peer, no object URL is made, and the transfer state stays set. *)
Theorem file_end_after_meta_without_payload (e1 e2 : Env) (raw : jsstring)
  (o : list (jsstring * json)) (h : Hook) :
  JSON.parse raw = Some (JObj o) ->
  obj_get (js "type") o = Some (JStr (js "file-meta")) ->
  obj_get (js "payload") o = None \/
  obj_get (js "payload") o = Some JNull \/
  (exists p ty, obj_get (js "payload") o = Some (JObj p) /\
                obj_get (js "type") p = Some ty /\
                ToString_throws ty = true) ->
  exists h',
    receive [(e1, DataString raw);
             (e2, DataString (stringify FileEndMessage))] h = Normal h' /\
    receivedMessages h' =
      receivedMessages h ++
        [TextEntry [(js "type", JStr (js "text"));
                    (js "id", JStr (randomUUID e2));
                    (js "content", JStr (stringify FileEndMessage));
                    (js "sender", JStr (js "peer"));
                    (js "timestamp", JNum (Z.of_N (now e2)) 0)]] /\
    fileReceiver h' = Some {| info := payload_of o; chunks := [] |} /\
    objectURLs h' = objectURLs h.
Proof.
  intros Hparse Htype Hpayload.
  assert (Hrun :
    receive [(e1, DataString raw);
             (e2, DataString (stringify FileEndMessage))] h =
    Normal
      (setReceivedMessages
         (fun prev => prev ++
            [TextEntry (fallback_text e2 (stringify FileEndMessage))])
         (set_fileReceiver
            (Some {| info := payload_of o; chunks := [] |}) h))).
  { cbn [receive handleDataChannelMessage].
    rewrite (handle_string_file_meta e1 raw h o Hparse Htype).
    unfold handle_string at 1. rewrite parse_stringify_file_end.
    unfold payload_of.
    destruct Hpayload as [-> | [-> | (p & ty & -> & Hty & Hthrows)]];
      [reflexivity | reflexivity |].
    cbn [get FileEndMessage obj_get].
    change (jsstring_eqb (js "type") (js "type")) with true. cbv iota.
    change (is_string _ (js "file-meta")) with false.
    change (is_string _ (js "file-end")) with true.
    cbn [fileReceiver set_fileReceiver info get].
    rewrite Hty. cbn [DOMString_throws]. rewrite Hthrows. reflexivity. }
  eexists. split; [exact Hrun|]. repeat split.
Qed.

Lemma file_end_after_meta_without_payload_witness :
  (exists h',
     receive [(env0, DataString (stringify (JObj bare_meta)));
              (env0, DataString (stringify FileEndMessage))] initial
     = Normal h' /\
     List.length (receivedMessages h') = 1%nat /\
     fileReceiver h' = Some {| info := Undefined; chunks := [] |} /\
     objectURLs h' = []) /\
  (exists h',
     receive [(env0, DataString (stringify (JObj unconvertible_meta)));
              (env0, DataString (stringify FileEndMessage))] initial
     = Normal h' /\
     List.length (receivedMessages h') = 1%nat /\
     fileReceiver h' <> None /\
     objectURLs h' = []).
Proof.
  split.
  - destruct (file_end_after_meta_without_payload env0 env0
                (stringify (JObj bare_meta)) bare_meta initial)
      as (h' & Hrun & Hlog & Hfr & Hurls);
      [reflexivity | reflexivity | left; reflexivity |].
    exists h'. split; [exact Hrun|]. rewrite Hlog, Hfr, Hurls.
    repeat split.
  - destruct (file_end_after_meta_without_payload env0 env0
                (stringify (JObj unconvertible_meta)) unconvertible_meta initial)
      as (h' & Hrun & Hlog & Hfr & Hurls);
      [reflexivity | reflexivity | |].
    + right. right.
      exists [(js "name", JStr (js "a.txt")); (js "size", JNum 1 0);
              (js "type", JObj [(js "toString", JNum 1 0)])],
             (JObj [(js "toString", JNum 1 0)]).
      repeat split.
    + exists h'. split; [exact Hrun|]. rewrite Hlog, Hfr, Hurls.
      repeat split. discriminate.
Defined.

End ReceiverRuns.

(** ** More on the sender *)

Module SenderRuns.

Import WireFacts Receiver FileSender EndToEnd.

Lemma receive_app (l1 l2 : list (Env * MessageData)) (h : Hook) :
  receive (l1 ++ l2) h =
  match receive l1 h with
  | Normal h' => receive l2 h'
  | Throw h' => Throw h'
  end.
Proof.
  revert h. induction l1 as [|[e d] l1 IH]; intros h; [reflexivity|].
  cbn [app receive]. destruct (handleDataChannelMessage e d h); [apply IH | reflexivity].
Qed.

(** X1. A text sent over an open channel goes out as one frame and is
    logged at once as mine; that frame, delivered to the peer, is logged
    there as a text from the peer with the same id, content and
    timestamp. *)
Theorem text_round_trip (e e' : Env) (text : jsstring) (h g : Hook)
  (ch : RTCDataChannel) :
  dc h = Some ch -> is_open ch = true ->
  exists h' ch' frame,
    sendText e text h = Normal h' /\
    dc h' = Some ch' /\ sent ch' = sent ch ++ [frame] /\
    receivedMessages h' =
      receivedMessages h ++
        [TextEntry [(js "type", JStr (js "text"));
                    (js "id", JStr (randomUUID e));
                    (js "content", JStr text);
                    (js "timestamp", JNum (Z.of_N (now e)) 0);
                    (js "sender", JStr (js "me"))]] /\
    receive [delivered e' frame] g =
      Normal (setReceivedMessages
                (fun prev => prev ++
                   [TextEntry [(js "type", JStr (js "text"));
                               (js "id", JStr (randomUUID e));
                               (js "content", JStr text);
                               (js "timestamp", JNum (Z.of_N (now e)) 0);
                               (js "sender", JStr (js "peer"))]]) g).
Proof.
  intros Hdc Hopen.
  destruct (sendText_sends e text h ch Hdc Hopen) as (h' & ch' & Hs & Hd & Hf & Hl).
  exists h', ch', (FText (stringify (text_record (randomUUID e) text (now e)))).
  repeat split; try assumption.
  cbn [receive delivered]. rewrite text_is_delivered. reflexivity.
Qed.

Lemma text_round_trip_witness :
  exists h' ch' frame,
    sendText env0 (js " hello ") open_session = Normal h' /\
    dc h' = Some ch' /\ sent ch' = [frame] /\
    receive [delivered env0 frame] initial =
      Normal (setReceivedMessages
                (fun prev => prev ++
                   [TextEntry [(js "type", JStr (js "text"));
                               (js "id", JStr (randomUUID env0));
                               (js "content", JStr (js " hello "));
                               (js "timestamp", JNum (Z.of_N (now env0)) 0);
                               (js "sender", JStr (js "peer"))]]) initial).
Proof.
  destruct (text_round_trip env0 env0 (js " hello ") open_session initial
              open_channel eq_refl eq_refl)
    as (h' & ch' & frame & H1 & H2 & H3 & _ & H5).
  exists h', ch', frame. repeat split; assumption.
Defined.

(** X2. A file sent to completion puts its frames on the channel, and
    those frames delivered to the peer in order are handled without an
    exception: the peer's log is its old log and exactly one file, under
    the name, size and type of the file sent; the peer's object URL for it
    addresses exactly the bytes of the file sent; the peer's transfer state
    is cleared. *)
Theorem file_round_trip (e e' : Env) (file : File) (readings : list N)
  (h g : Hook) (ch : RTCDataChannel) :
  dc h = Some ch -> is_open ch = true -> onbufferedamountlow ch = None ->
  readers h = [] -> timers h = [] ->
  (N.to_nat (chunk_count (file_size file))
   < go_count (bufferedAmountLowThreshold ch) readings)%nat ->
  exists h' ch' g',
    transfer e file readings h = Normal h' /\
    dc h' = Some ch' /\ sent ch' = sent ch ++ transfer_frames file /\
    receive (map (delivered e') (transfer_frames file)) g = Normal g' /\
    receivedMessages g' = receivedMessages g ++ [received_entry e' file] /\
    objectURLs g' = objectURLs g ++ [(createObjectURL e', blob_of_file file)] /\
    fileReceiver g' = None.
Proof.
  intros Hdc Hopen Hslot Hreaders Htimers Hgo.
  exists (sent_file e h ch file), (channel_after ch (transfer_frames file)).
  eexists.
  split; [|split; [reflexivity | split; [reflexivity|]]].
  - unfold transfer.
    rewrite (sendFile_starts h ch file Hdc Hopen Hslot Hreaders Htimers).
    apply pump_completes; [reflexivity | lia | lia].
  - split; [apply file_is_delivered|]. repeat split.
Qed.

Lemma file_round_trip_witness :
  exists h' ch' g',
    transfer env0 file_40000 [20000; 0; 0; 0; 0] open_session = Normal h' /\
    dc h' = Some ch' /\ sent ch' = transfer_frames file_40000 /\
    receive (map (delivered env0) (transfer_frames file_40000)) initial
      = Normal g' /\
    receivedMessages g' = [received_entry env0 file_40000] /\
    objectURLs g' = [(createObjectURL env0, blob_of_file file_40000)] /\
    fileReceiver g' = None.
Proof.
  destruct (file_round_trip env0 env0 file_40000 [20000; 0; 0; 0; 0]
              open_session initial open_channel)
    as (h' & ch' & g' & H1 & H2 & H3 & H4 & H5 & H6 & H7); try reflexivity.
  - vm_compute. lia.
  - exists h', ch', g'. repeat split; assumption.
Defined.

Lemma chunks_of_split (buffer : bytes) (k : nat) :
  N.of_nat k <= chunk_count (byteLength buffer) ->
  exists later, chunks_of buffer = chunks_upto buffer k ++ later.
Proof.
  intros Hk. unfold chunks_of, chunks_upto.
  set (n := N.to_nat (chunk_count (byteLength buffer))).
  exists (map (fun i => chunk_at buffer (N.of_nat i)) (seq (0 + k) (n - k))).
  rewrite <- map_app, <- seq_app. f_equal. f_equal. subst n. lia.
Qed.

(** X3. However the channel's [bufferedAmount] behaves and however long
    the transfer has run, what has been sent is a beginning of the file's
    frames that includes the file-meta record, nothing is sent out of
    order or twice, and the file is logged as sent exactly when the last
    frame, the file-end record, has gone out. *)
Theorem transfer_sends_a_prefix (e : Env) (file : File) (readings : list N)
  (h : Hook) (ch : RTCDataChannel) :
  dc h = Some ch -> is_open ch = true -> onbufferedamountlow ch = None ->
  readers h = [] -> timers h = [] ->
  exists h' ch' more rest,
    transfer e file readings h = Normal h' /\
    dc h' = Some ch' /\
    sent ch' = sent ch
               ++ FText (stringify (FileMetaMessage (fileInfo_of file))) :: more /\
    sent ch' ++ rest = sent ch ++ transfer_frames file /\
    receivedMessages h' =
      match rest with
      | [] => receivedMessages h ++ [sent_entry e file]
      | _ :: _ => receivedMessages h
      end.
Proof.
  intros Hdc Hopen Hslot Hreaders Htimers. unfold transfer.
  rewrite (sendFile_starts h ch file Hdc Hopen Hslot Hreaders Htimers).
  destruct (pump_stays_on_course e h ch file readings 0 by_load)
    as [Hdone | (k & p & Hk & Hrun)]; [reflexivity | lia | |].
  - rewrite Hdone.
    exists (sent_file e h ch file), (channel_after ch (transfer_frames file)),
      (map FBinary (chunks_of (file_bytes file)) ++ [FText (stringify FileEndMessage)]),
      [].
    repeat split. cbn [sent channel_after]. apply app_nil_r.
  - rewrite Hrun.
    destruct (chunks_of_split (file_bytes file) k Hk) as (later & Hlater).
    eexists. eexists.
    exists (map FBinary (chunks_upto (file_bytes file) k)),
      (map FBinary later ++ [FText (stringify FileEndMessage)]).
    split; [reflexivity|]. split; [reflexivity|].
    split; [reflexivity|]. split.
    + cbn [sent]. unfold transfer_frames. rewrite Hlater, map_app.
      rewrite <- !app_assoc. reflexivity.
    + destruct (map FBinary later); reflexivity.
Qed.

Lemma transfer_sends_a_prefix_witness :
  exists h' ch' more rest,
    transfer env0 small_file [5; 7] open_session = Normal h' /\
    dc h' = Some ch' /\
    sent ch' = FText (stringify (FileMetaMessage (fileInfo_of small_file))) :: more /\
    sent ch' ++ rest = transfer_frames small_file /\
    receivedMessages h' =
      match rest with
      | [] => [sent_entry env0 small_file]
      | _ :: _ => []
      end.
Proof.
  destruct (transfer_sends_a_prefix env0 small_file [5; 7] open_session
              open_channel eq_refl eq_refl eq_refl eq_refl eq_refl)
    as (h' & ch' & more & rest & H1 & H2 & H3 & H4 & H5).
  exists h', ch', more, rest. repeat split; assumption.
Defined.

(** [sendChunk] without a channel always throws, having done nothing. *)
Lemma sendChunk_without_channel (e : Env) (b : N) (job : SendJob) (h : Hook) :
  dc h = None -> sendChunk e b job h = Throw h.
Proof.
  intros Hdc. unfold sendChunk. rewrite Hdc.
  destruct (byteLength (file_bytes (job_file job)) <=? job_offset job);
    reflexivity.
Qed.

(** X9. A transfer that outlives its channel: once the channel handle is
    null (after a reset), the next continuation of a pending transfer, a
    completed read or a timer, throws out of [sendChunk]; it is used up,
    nothing is logged as sent and no channel appears. *)
Theorem continuation_without_channel_throws (e : Env) (b : N) (h : Hook) :
  dc h = None ->
  readers h <> [] \/ timers h <> [] ->
  exists h',
    pump_step e b h = Throw h' /\
    dc h' = None /\
    receivedMessages h' = receivedMessages h /\
    objectURLs h' = objectURLs h /\
    (S (List.length (readers h') + List.length (timers h'))
     = List.length (readers h) + List.length (timers h))%nat.
Proof.
  intros Hdc Hpending. unfold pump_step.
  destruct (readers h) as [|file rest] eqn:Hreaders.
  - destruct (timers h) as [|job jobs] eqn:Htimers.
    + destruct Hpending; contradiction.
    + unfold timeout. rewrite Htimers.
      rewrite sendChunk_without_channel by exact Hdc.
      eexists. split; [reflexivity|]. cbn. rewrite Hreaders.
      repeat split; try assumption.
  - unfold reader_onload. rewrite Hreaders.
    rewrite sendChunk_without_channel by exact Hdc.
    eexists. split; [reflexivity|]. cbn.
    repeat split; try assumption.
Qed.

Lemma continuation_without_channel_throws_witness :
  exists h',
    pump_step env0 0 (run [call_sendFile small_file; call_resetConnection] open_session)
      = Throw h' /\
    dc h' = None /\ receivedMessages h' = [] /\
    readers h' = [] /\ timers h' = [].
Proof.
  destruct (continuation_without_channel_throws env0 0
              (run [call_sendFile small_file; call_resetConnection] open_session))
    as (h' & H1 & H2 & H3 & _ & H5).
  - reflexivity.
  - left. discriminate.
  - exists h'. split; [exact H1|]. split; [exact H2|]. split; [exact H3|].
    cbn in H5. destruct (readers h'), (timers h'); cbn in H5; try lia.
    split; reflexivity.
Defined.

(** The second file's read completes above the threshold while the first
    transfer waits in [onbufferedamountlow]. *)
Lemma second_transfer_takes_the_slot (e : Env) (a b : File) (bA bB : N)
  (h : Hook) (ch : RTCDataChannel) :
  dc h = Some ch -> is_open ch = true -> onbufferedamountlow ch = None ->
  readers h = [] -> timers h = [] ->
  0 < file_size a -> 0 < file_size b ->
  bufferedAmountLowThreshold ch < bA -> bufferedAmountLowThreshold ch < bB ->
  run [call_sendFile a; ev_load e bA; call_sendFile b; ev_load e bB] h =
  sending h
    (channel_after ch [FText (stringify (FileMetaMessage (fileInfo_of a)))])
    b 0 by_drain.
Proof.
  intros Hdc Hopen Hslot Hreaders Htimers Ha Hb HbA HbB.
  assert (Hcount : forall f, 0 < file_size f -> N.of_nat 0 < chunk_count (file_size f)).
  { intros f Hf. pose proof (chunk_count_bounds (file_size f)) as Hbound.
    unfold CHUNK_SIZE in Hbound. lia. }
  cbn [run perform].
  rewrite (sendFile_starts h ch a Hdc Hopen Hslot Hreaders Htimers).
  cbn [state_of].
  change (reader_onload e bA (sending h ch a 0 by_load))
    with (pump_step e bA (sending h ch a 0 by_load)).
  rewrite pump_step_wait by (auto || exact HbA).
  cbn [state_of]. unfold sendFile, sending. hook_simpl. cbn [state_of].
  unfold reader_onload. hook_simpl.
  erewrite sendChunk_wait;
    [ | reflexivity | hook_simpl; unfold file_size in Hb; exact Hb
      | hook_simpl; exact HbB ].
  cbn [state_of]. rewrite !first_offset. hook_simpl.
  unfold channel_after. hook_simpl. reflexivity.
Qed.

(** X10. Two files sent at once share the single [onbufferedamountlow]
    slot: when the second transfer is made to wait while the first is
    waiting, it takes the slot and the first transfer is never continued.
    The channel gets the first file's file-meta record and then the whole
    second file; only the second file is ever logged as sent, and nothing
    of the first remains pending. *)
Theorem concurrent_transfer_loses_the_first (e : Env) (a b : File)
  (bA bB : N) (readings : list N) (h : Hook) (ch : RTCDataChannel) :
  dc h = Some ch -> is_open ch = true -> onbufferedamountlow ch = None ->
  readers h = [] -> timers h = [] ->
  0 < file_size a -> 0 < file_size b ->
  bufferedAmountLowThreshold ch < bA -> bufferedAmountLowThreshold ch < bB ->
  (N.to_nat (chunk_count (file_size b))
   < go_count (bufferedAmountLowThreshold ch) readings)%nat ->
  exists h' ch',
    pump e readings
      (run [call_sendFile a; ev_load e bA; call_sendFile b; ev_load e bB] h)
      = Normal h' /\
    dc h' = Some ch' /\
    sent ch' = sent ch
               ++ FText (stringify (FileMetaMessage (fileInfo_of a)))
               :: transfer_frames b /\
    receivedMessages h' = receivedMessages h ++ [sent_entry e b] /\
    onbufferedamountlow ch' = None /\ readers h' = [] /\ timers h' = [].
Proof.
  intros Hdc Hopen Hslot Hreaders Htimers Ha Hb HbA HbB Hgo.
  rewrite (second_transfer_takes_the_slot e a b bA bB h ch)
    by assumption.
  rewrite pump_completes;
    [ | discriminate | lia | cbn [bufferedAmountLowThreshold channel_after]; lia].
  eexists. eexists. split; [reflexivity|]. split; [reflexivity|].
  split; [|repeat split].
  cbn [sent channel_after]. rewrite <- app_assoc. reflexivity.
Qed.

Lemma concurrent_transfer_loses_the_first_witness :
  exists h' ch',
    pump env0 [0; 0]
      (run [call_sendFile small_file; ev_load env0 5;
            call_sendFile second_file; ev_load env0 5] open_session)
      = Normal h' /\
    dc h' = Some ch' /\
    sent ch' = FText (stringify (FileMetaMessage (fileInfo_of small_file)))
               :: transfer_frames second_file /\
    receivedMessages h' = [sent_entry env0 second_file].
Proof.
  destruct (concurrent_transfer_loses_the_first env0 small_file second_file
              5 5 [0; 0] open_session open_channel)
    as (h' & ch' & H1 & H2 & H3 & H4 & _); try reflexivity.
  - vm_compute. lia.
  - exists h', ch'. repeat split; assumption.
Defined.

(** X11. Two files sent one after the other, each to completion: the
    channel carries the frames of the first and then those of the second,
    and the peer that receives them in order logs the two files, in that
    order, each with its own bytes. *)
Theorem transfers_in_sequence (e1 e2 e1' e2' : Env) (a b : File)
  (r1 r2 : list N) (h g : Hook) (ch : RTCDataChannel) :
  dc h = Some ch -> is_open ch = true -> onbufferedamountlow ch = None ->
  readers h = [] -> timers h = [] ->
  (N.to_nat (chunk_count (file_size a))
   < go_count (bufferedAmountLowThreshold ch) r1)%nat ->
  (N.to_nat (chunk_count (file_size b))
   < go_count (bufferedAmountLowThreshold ch) r2)%nat ->
  exists h1 h2 ch2 g',
    transfer e1 a r1 h = Normal h1 /\
    transfer e2 b r2 h1 = Normal h2 /\
    dc h2 = Some ch2 /\
    sent ch2 = sent ch ++ transfer_frames a ++ transfer_frames b /\
    receivedMessages h2 = receivedMessages h ++ [sent_entry e1 a; sent_entry e2 b] /\
    receive (map (delivered e1') (transfer_frames a)
             ++ map (delivered e2') (transfer_frames b)) g = Normal g' /\
    receivedMessages g' =
      receivedMessages g ++ [received_entry e1' a; received_entry e2' b] /\
    objectURLs g' =
      objectURLs g ++ [(createObjectURL e1', blob_of_file a);
                       (createObjectURL e2', blob_of_file b)] /\
    fileReceiver g' = None.
Proof.
  intros Hdc Hopen Hslot Hreaders Htimers Hgo1 Hgo2.
  exists (sent_file e1 h ch a).
  exists (sent_file e2 (sent_file e1 h ch a) (channel_after ch (transfer_frames a)) b).
  eexists. eexists.
  split; [|split; [|split; [reflexivity|split; [|split; [|split]]]]].
  - unfold transfer.
    rewrite (sendFile_starts h ch a Hdc Hopen Hslot Hreaders Htimers).
    apply pump_completes; [reflexivity | lia | lia].
  - unfold transfer.
    rewrite (sendFile_starts (sent_file e1 h ch a)
               (channel_after ch (transfer_frames a)) b)
      by reflexivity.
    apply pump_completes;
      [reflexivity | lia | cbn [bufferedAmountLowThreshold channel_after]; lia].
  - cbn [sent channel_after]. rewrite <- app_assoc. reflexivity.
  - cbn. rewrite <- app_assoc. reflexivity.
  - rewrite receive_app, file_is_delivered, file_is_delivered. reflexivity.
  - cbn. rewrite <- !app_assoc. repeat split.
Qed.

Lemma transfers_in_sequence_witness :
  exists h1 h2 ch2,
    transfer env0 small_file [0; 0] open_session = Normal h1 /\
    transfer env0 second_file [0; 0] h1 = Normal h2 /\
    dc h2 = Some ch2 /\
    sent ch2 = transfer_frames small_file ++ transfer_frames second_file.
Proof.
  destruct (transfers_in_sequence env0 env0 env0 env0 small_file second_file
              [0; 0] [0; 0] open_session initial open_channel)
    as (h1 & h2 & ch2 & g' & H1 & H2 & H3 & H4 & _); try reflexivity.
  - vm_compute. lia.
  - vm_compute. lia.
  - exists h1, h2, ch2. repeat split; assumption.
Defined.

End SenderRuns.

(** ** More on the session *)

Module SessionRuns.

Import JSONFacts WireFacts.

Lemma stringify_description (d : SessionDescription) :
  stringify (description_object d) = description_text (sd_type d) (sd_sdp d).
Proof.
  unfold description_object, description_text.
  cbn [stringify map join fst snd].
  cbn [app]. repeat (rewrite <- ?app_assoc; cbn [app]; f_equal).
Qed.

(** Decoding an encoded session description gives the description back. *)
Lemma parse_stringify_description (d : SessionDescription) :
  JSON.parse (stringify (description_object d)) = Some (description_object d).
Proof.
  rewrite stringify_description.
  apply (parse_of_parse_value 4).
  { unfold parse_fuel, description_text.
    repeat (progress cbn [List.length] || rewrite length_app). lia. }
  unfold description_text.
  rewrite parse_value_object.
  erewrite parse_members_more by apply parse_value_quote.
  erewrite parse_members_last by apply (parse_value_quote _ _ [125]).
  reflexivity.
Qed.

(** X12. The manual handshake, when the host accepts every step: the
    offer text one peer shows is parsed by the other peer's [createAnswer],
    the answer text that peer shows is parsed by [setRemoteAnswer], nobody
    fails, and the channel's open event takes both peers to Connected. *)
Theorem handshake_connects (nA nB : Negotiation)
  (offer answer : SessionDescription) (a0 b0 : Hook) (chB : RTCDataChannel) :
  host_createOffer nA = Some offer -> sd_type offer = js "offer" ->
  host_setLocalDescription nA = true ->
  host_setRemoteDescription nB (description_object offer) = true ->
  host_createAnswer nB = Some answer -> sd_type answer = js "answer" ->
  host_setLocalDescription nB = true ->
  host_setRemoteDescription nA (description_object answer) = true ->
  let pcA := {| localDescription := Some offer; remoteDescription := None |} in
  let pcB := {| localDescription := Some answer;
                remoteDescription := Some (description_object offer) |} in
  exists a1 a2 a3 b1 b2 offerText answerText,
    createOffer nA a0 = Normal a1 /\ pc a1 = Some pcA /\
    a2 = onicecandidate pcA false a1 /\ offerSdp a2 = Some offerText /\
    createAnswer nB offerText b0 = Normal b1 /\ pc b1 = Some pcB /\
    connectionState b1 = connecting /\
    b2 = onicecandidate pcB false b1 /\ answerSdp b2 = Some answerText /\
    setRemoteAnswer nA answerText a2 = Normal a3 /\
    connectionState a3 = connecting /\ errorMessage a3 = None /\
    connectionState (run [ev_open] a3) = connected /\
    connectionState (run [ev_datachannel chB; ev_open] b2) = connected /\
    errorMessage (run [ev_open] a3) = None.
Proof.
  intros HcO HtO HlA HrB HcA HtA HlB HrA pcA pcB.
  assert (Hanswer_type : jsstring_eqb (sd_type answer) (js "offer") = false)
    by (rewrite HtA; reflexivity).
  assert (Hoffer_type : jsstring_eqb (sd_type offer) (js "offer") = true)
    by (rewrite HtO; reflexivity).
  assert (HB : exists b1,
             createAnswer nB (stringify (description_object offer)) b0 = Normal b1 /\
             pc b1 = Some pcB /\ connectionState b1 = connecting).
  { unfold createAnswer, createAnswer_try.
    rewrite parse_stringify_description, HrB, HcA, HlB.
    unfold set_localDescription, set_remoteDescription.
    destruct (pc b0) as [p0|] eqn:Hpc0.
    - rewrite Hpc0. cbn [pc set_pc]. eexists. repeat split.
    - cbn [pc set_pc createPeerConnection resetState]. eexists. repeat split. }
  destruct HB as (b1 & HB1 & HB2 & HB3).
  eexists. eexists. eexists. exists b1. eexists.
  exists (stringify (description_object offer)),
    (stringify (description_object answer)).
  split. { unfold createOffer. rewrite HcO, HlA. reflexivity. }
  split. { reflexivity. }
  split. { reflexivity. }
  split. { unfold onicecandidate. cbn [localDescription pcA].
           rewrite Hoffer_type. reflexivity. }
  split. { exact HB1. }
  split. { exact HB2. }
  split. { exact HB3. }
  split. { reflexivity. }
  split. { unfold onicecandidate. cbn [localDescription pcB].
           rewrite Hanswer_type. reflexivity. }
  split. { unfold setRemoteAnswer, setRemoteAnswer_try, onicecandidate.
           cbn [localDescription pcA]. rewrite Hoffer_type.
           cbn [pc setOfferSdp setConnectionState set_localDescription
                resetState createPeerConnection setupDataChannel set_pc set_dc].
           rewrite parse_stringify_description, HrA. reflexivity. }
  unfold onicecandidate. cbn [localDescription pcA pcB].
  rewrite ?Hoffer_type, ?Hanswer_type.
  split; [reflexivity|]. split; [reflexivity|]. split; [reflexivity|].
  split; [|reflexivity].
  cbn [run perform state_of ondatachannel setupDataChannel channel_onopen].
  reflexivity.
Qed.

Lemma handshake_connects_witness :
  exists a3 b2 offerText answerText,
    offerSdp (onicecandidate
                {| localDescription := host_createOffer host_ok;
                   remoteDescription := None |} false
                (run [call_createOffer host_ok] initial)) = Some offerText /\
    answerSdp b2 = Some answerText /\
    setRemoteAnswer host_ok answerText
      (onicecandidate
         {| localDescription := host_createOffer host_ok;
            remoteDescription := None |} false
         (run [call_createOffer host_ok] initial)) = Normal a3 /\
    connectionState (run [ev_open] a3) = connected /\
    connectionState (run [ev_datachannel new_channel; ev_open] b2) = connected.
Proof.
  destruct (handshake_connects host_ok host_ok
              {| sd_type := js "offer"; sd_sdp := js "v=0" |}
              {| sd_type := js "answer"; sd_sdp := js "v=0" |}
              initial initial new_channel)
    as (a1 & a2 & a3 & b1 & b2 & offerText & answerText & H1 & H2 & H3 & H4
        & H5 & H6 & H7 & H8 & H9 & H10 & H11 & H12 & H13 & H14 & H15);
    try reflexivity.
  exists a3, b2, offerText, answerText.
  inversion H1; subst a1. subst a2.
  repeat split; assumption.
Defined.

(** Case analysis on the innermost scrutinee first. *)
Ltac break_inner :=
  repeat match goal with
    | |- context [match ?x with _ => _ end] =>
        lazymatch x with
        | context [match _ with _ => _ end] => fail
        | _ => destruct x eqn:?
        end
    end.

Ltac unfold_action :=
  unfold perform, createOffer, createAnswer, createAnswer_try,
    setRemoteAnswer, setRemoteAnswer_try, sendText, sendFile, reader_onload,
    timeout, bufferedamountlow, sendChunk, handleDataChannelMessage,
    handle_string, onconnectionstatechange, onicecandidate, ondatachannel,
    channel_onopen, channel_onclose, host_opens, set_localDescription,
    set_remoteDescription, createPeerConnection, setupDataChannel, send.

(** What one call or event may do to the state, the diagnostic and the
    object URLs, however it ends. *)
Lemma perform_session (a : Action) (h : Hook) :
  let h' := state_of (perform a h) in
  (exists added, objectURLs h' = objectURLs h ++ added) /\
  ((connectionState h' = connectionState h /\ errorMessage h' = errorMessage h)
   \/ (connectionState h' <> failed /\ errorMessage h' = errorMessage h)
   \/ (connectionState h' <> failed /\ errorMessage h' = None)
   \/ (exists m, errorMessage h' = Some m /\ m <> [])).
Proof.
  destruct a; unfold_action; break_inner; cbn;
    (split;
     [ first [ exists []; symmetry; apply app_nil_r | eexists; reflexivity ]
     | first [ left; split; reflexivity
             | right; left; split; [discriminate | reflexivity]
             | right; right; left; split; [discriminate | reflexivity]
             | right; right; right; eexists; split; [reflexivity | discriminate]
             ] ]).
Qed.

(** X13. In every state the hook can reach, a Failed session carries a
    diagnostic, and a diagnostic is never the empty string. *)
Theorem failed_session_has_diagnostic (actions : list Action) :
  let h := run actions initial in
  (connectionState h = failed -> errorMessage h <> None) /\
  (forall m, errorMessage h = Some m -> m <> []).
Proof.
  cbv zeta.
  assert (Hinv : forall acts h,
             (connectionState h = failed -> errorMessage h <> None) /\
             (forall m, errorMessage h = Some m -> m <> []) ->
             (connectionState (run acts h) = failed ->
              errorMessage (run acts h) <> None) /\
             (forall m, errorMessage (run acts h) = Some m -> m <> [])).
  { induction acts as [|a acts IH]; intros h Hh; [exact Hh|].
    cbn [run]. apply IH. destruct Hh as [Hfailed Hmsg].
    destruct (perform_session a h)
      as [_ [[Hs He] | [[Hs He] | [[Hs He] | (m & He & Hm)]]]].
    - rewrite Hs, He. split; assumption.
    - rewrite He. split; [intros Hf; contradiction | assumption].
    - rewrite He. split; [intros Hf; contradiction | discriminate].
    - rewrite He. split; [discriminate|]. intros m' E. inversion E. subst. exact Hm. }
  apply Hinv. split; [discriminate | discriminate].
Qed.

(** X14. The hook never revokes an object URL: whatever is called and
    whatever fires, a reset included, every URL handed out so far still
    addresses its blob. *)
Theorem object_urls_are_never_revoked (actions : list Action) (h : Hook) :
  exists added, objectURLs (run actions h) = objectURLs h ++ added.
Proof.
  revert h. induction actions as [|a actions IH]; intros h.
  - exists []. symmetry. apply app_nil_r.
  - cbn [run]. destruct (IH (state_of (perform a h))) as (added2 & H2).
    destruct (perform_session a h) as [(added1 & H1) _].
    exists (added1 ++ added2). rewrite H2, H1, app_assoc. reflexivity.
Qed.

(** X15. [createOffer] starts over from any state: the log, the
    diagnostic, the descriptions and a transfer in flight are discarded and
    a fresh connection and channel are held.  It never reports through
    state: when the host accepts both steps it returns in Connecting,
    otherwise the exception leaves the call with the session Disconnected
    and the fresh channel still held. *)
Theorem createOffer_starts_over (n : Negotiation) (h : Hook) :
  let c := createOffer n h in
  let h' := state_of c in
  receivedMessages h' = [] /\ errorMessage h' = None /\
  offerSdp h' = None /\ answerSdp h' = None /\ fileReceiver h' = None /\
  dc h' = Some new_channel /\ pc h' <> None /\
  objectURLs h' = objectURLs h /\
  match host_createOffer n, host_setLocalDescription n with
  | Some _, true => c = Normal h' /\ connectionState h' = connecting
  | _, _ => c = Throw h' /\ connectionState h' = disconnected
  end.
Proof.
  unfold createOffer.
  destruct (host_createOffer n) as [offer|];
    [destruct (host_setLocalDescription n)|];
    cbn; repeat split; discriminate.
Qed.

(** X16. A retry after a failed [createAnswer] does not start over: the
    connection handle of the failed attempt is reused, nothing is reset,
    and when the second blob is accepted the session is Connecting with the
    diagnostic of the failed attempt still set. *)
Theorem createAnswer_retry_keeps_diagnostic (n1 n2 : Negotiation)
  (blob1 blob2 : jsstring) (d : json) (answer : SessionDescription) (h : Hook) :
  remote_rejected n1 blob1 = true ->
  JSON.parse blob2 = Some d ->
  host_setRemoteDescription n2 d = true ->
  host_createAnswer n2 = Some answer ->
  host_setLocalDescription n2 = true ->
  exists h1 h2,
    createAnswer n1 blob1 h = Normal h1 /\
    connectionState h1 = failed /\
    createAnswer n2 blob2 h1 = Normal h2 /\
    connectionState h2 = connecting /\
    errorMessage h2 = Some invalid_offer_message /\
    receivedMessages h2 = receivedMessages h1 /\
    dc h2 = dc h1 /\
    pc h2 = Some {| localDescription := Some answer; remoteDescription := Some d |}.
Proof.
  intros Hrej Hparse Hremote Hanswer Hlocal.
  assert (H1 : exists h1,
             createAnswer n1 blob1 h = Normal h1 /\
             connectionState h1 = failed /\
             errorMessage h1 = Some invalid_offer_message /\ pc h1 <> None).
  { unfold remote_rejected in Hrej. unfold createAnswer, createAnswer_try.
    destruct (JSON.parse blob1) as [d1|];
      [apply negb_true_iff in Hrej; rewrite Hrej|];
      destruct (pc h) as [p|] eqn:Hpc;
      (eexists; split; [reflexivity|]; split; [reflexivity|];
       split; [reflexivity|]; cbn; rewrite ?Hpc; discriminate). }
  destruct H1 as (h1 & Hc1 & Hs1 & He1 & Hp1).
  destruct (pc h1) as [p1|] eqn:Hpc1; [|contradiction].
  exists h1. eexists. split; [exact Hc1|]. split; [exact Hs1|].
  unfold createAnswer, createAnswer_try. rewrite Hpc1.
  rewrite Hparse, Hremote, Hanswer, Hlocal.
  unfold set_localDescription, set_remoteDescription. rewrite Hpc1.
  cbn [pc set_pc]. split; [reflexivity|]. repeat split. exact He1.
Qed.

Lemma createAnswer_retry_keeps_diagnostic_witness :
  exists h1 h2,
    createAnswer host_ok (js "not a session description") initial = Normal h1 /\
    connectionState h1 = failed /\
    createAnswer host_ok
      (stringify (description_object {| sd_type := js "offer"; sd_sdp := js "v=0" |}))
      h1 = Normal h2 /\
    connectionState h2 = connecting /\
    errorMessage h2 = Some invalid_offer_message.
Proof.
  destruct (createAnswer_retry_keeps_diagnostic host_ok host_ok
              (js "not a session description")
              (stringify (description_object
                            {| sd_type := js "offer"; sd_sdp := js "v=0" |}))
              (description_object {| sd_type := js "offer"; sd_sdp := js "v=0" |})
              {| sd_type := js "answer"; sd_sdp := js "v=0" |} initial)
    as (h1 & h2 & H1 & H2 & H3 & H4 & H5 & _); try reflexivity.
  exists h1, h2. repeat split; assumption.
Defined.

End SessionRuns.

(** ** The components that call the hook *)

Module Components.
Import JSONFacts WireFacts EndToEnd SessionRuns.

(** [trimStart] stops at the first unit that is not white space. *)
Lemma trimStart_cases (s : jsstring) :
  (forallb is_js_space s = true /\ trimStart s = []) \/
  (forallb is_js_space s = false /\
   exists c r, trimStart s = c :: r /\ is_js_space c = false).
Proof.
  induction s as [|c r IH]; [left; split; reflexivity|].
  cbn [forallb trimStart]. destruct (is_js_space c) eqn:Hc.
  - exact IH.
  - right. split; [reflexivity|]. exists c, r. split; [reflexivity | exact Hc].
Qed.

(** A string is empty after [trim] exactly when it holds white space
    only. *)
Lemma truthy_trim (s : jsstring) :
  truthy (trim s) = negb (forallb is_js_space s).
Proof.
  unfold trim.
  destruct (trimStart_cases s) as [[Hall E] | [Hall (c & r & E & Hc)]];
    rewrite E, Hall; [reflexivity|].
  cbn [rev negb].
  destruct (trimStart_cases (rev r ++ [c]))
    as [[Hall' _] | [_ (c' & r' & E' & _)]].
  - rewrite forallb_app in Hall'. cbn [forallb] in Hall'.
    rewrite Hc in Hall'. rewrite andb_false_r in Hall'. discriminate.
  - rewrite E'. cbn [rev]. destruct (rev r'); reflexivity.
Qed.

(** White space in front of a JSON text is skipped. *)
Lemma skip_ws_app (pre s : jsstring) :
  forallb is_ws pre = true -> skip_ws (pre ++ s) = skip_ws s.
Proof.
  induction pre as [|c pre IH]; [reflexivity|].
  cbn [forallb app skip_ws]. intros H. apply andb_prop in H as [Hc Hpre].
  rewrite Hc. exact (IH Hpre).
Qed.

Lemma skip_ws_all (s : jsstring) :
  forallb is_ws s = true -> skip_ws s = [].
Proof.
  intros H. rewrite <- (app_nil_r s). rewrite (skip_ws_app _ _ H). reflexivity.
Qed.

Lemma parse_value_padded (f : nat) (pre s : jsstring) :
  forallb is_ws pre = true ->
  parse_value (S f) (pre ++ s) = parse_value (S f) s.
Proof.
  intros H. rewrite !parse_value_S, (skip_ws_app _ _ H). reflexivity.
Qed.

(** An encoded session description is read up to its closing brace. *)
Lemma parse_value_description (d : SessionDescription) (rest : jsstring) :
  parse_value 4 (stringify (description_object d) ++ rest) =
  Ok (description_object d, rest).
Proof.
  rewrite stringify_description. unfold description_text.
  cbn [app]. repeat (rewrite <- app_assoc; cbn [app]).
  rewrite parse_value_object.
  erewrite parse_members_more by apply parse_value_quote.
  erewrite parse_members_last by apply (parse_value_quote _ _ (125 :: rest)).
  reflexivity.
Qed.

Lemma parse_padded_description (d : SessionDescription)
  (pre post : jsstring) :
  forallb is_ws pre = true ->
  JSON.parse (pre ++ stringify (description_object d) ++ post) =
  match skip_ws post with
  | [] => Some (description_object d)
  | _ :: _ => None
  end.
Proof.
  intros Hpre. unfold JSON.parse.
  rewrite (parse_value_fuel_mono 4 _ _ (description_object d, post)).
  - reflexivity.
  - unfold parse_fuel. rewrite stringify_description. unfold description_text.
    repeat (progress cbn [List.length] || rewrite length_app). lia.
  - rewrite (parse_value_padded 3 _ _ Hpre). apply parse_value_description.
Qed.

(** A description text is not blank. *)
Lemma description_is_not_blank (d : SessionDescription)
  (pre post : jsstring) :
  truthy (trim (pre ++ stringify (description_object d) ++ post)) = true.
Proof.
  rewrite truthy_trim, stringify_description. unfold description_text.
  rewrite forallb_app. cbn [forallb app].
  change (is_js_space 123) with false.
  rewrite andb_false_r. reflexivity.
Qed.

(** X17. Input that holds white space only is ignored by every handler:
    joining, connecting and sending leave the hook as it is, throw nothing
    and keep the input box. *)
Theorem blank_input_is_ignored (n : Negotiation) (e : Env)
  (text : jsstring) (h : Hook) :
  forallb is_js_space text = true ->
  handleJoin n text h = Normal h /\
  handleConnect n text h = Normal h /\
  handleSend e text h = (text, Normal h) /\
  (forall key shiftKey, handleKeyPress key shiftKey e text h = (text, Normal h)).
Proof.
  intros Hblank.
  assert (Ht : truthy (trim text) = false)
    by (rewrite truthy_trim, Hblank; reflexivity).
  unfold handleJoin, handleConnect. rewrite Ht.
  assert (Hsend : handleSend e text h = (text, Normal h))
    by (unfold handleSend; rewrite Ht; reflexivity).
  repeat split; try exact Hsend.
  intros key shiftKey. unfold handleKeyPress.
  destruct (jsstring_eqb key (js "Enter") && negb shiftKey);
    [exact Hsend | reflexivity].
Qed.

Lemma blank_input_is_ignored_witness :
  handleJoin host_ok [32; 10; 160] initial = Normal initial /\
  handleSend env0 [32; 10; 160] open_session = ([32; 10; 160], Normal open_session).
Proof.
  destruct (blank_input_is_ignored host_ok env0 [32; 10; 160] initial)
    as (Hjoin & _); [reflexivity|].
  destruct (blank_input_is_ignored host_ok env0 [32; 10; 160] open_session)
    as (_ & _ & Hsend & _); [reflexivity|].
  split; assumption.
Defined.

(** X18. Text that is not blank goes out as typed: on an open channel
    [handleSend], and the Enter key without Shift, send one text record
    whose content is the untrimmed text, log it as sent by me and clear
    the input box; any other key, or Enter with Shift, does nothing. *)
Theorem handleSend_sends_text_as_typed (e : Env) (text : jsstring)
  (h : Hook) (ch : RTCDataChannel) :
  forallb is_js_space text = false ->
  dc h = Some ch -> is_open ch = true ->
  exists h' ch',
    handleSend e text h = ([], Normal h') /\
    handleKeyPress (js "Enter") false e text h = ([], Normal h') /\
    dc h' = Some ch' /\
    sent ch' = sent ch
               ++ [FText (stringify (text_record (randomUUID e) text (now e)))] /\
    receivedMessages h' =
      receivedMessages h ++
        [TextEntry [(js "type", JStr (js "text"));
                    (js "id", JStr (randomUUID e));
                    (js "content", JStr text);
                    (js "timestamp", JNum (Z.of_N (now e)) 0);
                    (js "sender", JStr (js "me"))]] /\
    handleKeyPress (js "Enter") true e text h = (text, Normal h) /\
    (forall key shiftKey, jsstring_eqb key (js "Enter") = false ->
       handleKeyPress key shiftKey e text h = (text, Normal h)).
Proof.
  intros Htext Hdc Hopen.
  destruct (sendText_sends e text h ch Hdc Hopen)
    as (h' & ch' & Hsend & Hdc' & Hsent & Hlog).
  assert (Ht : truthy (trim text) = true)
    by (rewrite truthy_trim, Htext; reflexivity).
  assert (Hs : handleSend e text h = ([], Normal h'))
    by (unfold handleSend; rewrite Ht, Hsend; reflexivity).
  exists h', ch'. split; [exact Hs|].
  split; [exact Hs|]. split; [exact Hdc'|]. split; [exact Hsent|].
  split; [exact Hlog|]. split; [reflexivity|].
  intros key shiftKey Hkey. unfold handleKeyPress. rewrite Hkey. reflexivity.
Qed.

Lemma handleSend_sends_text_as_typed_witness :
  exists h' ch',
    handleSend env0 (js " hello ") open_session = ([], Normal h') /\
    dc h' = Some ch' /\
    sent ch' = [FText (stringify (text_record (randomUUID env0) (js " hello ")
                                    (now env0)))].
Proof.
  destruct (handleSend_sends_text_as_typed env0 (js " hello ") open_session
              open_channel)
    as (h' & ch' & Hs & _ & Hdc & Hsent & _); try reflexivity.
  exists h', ch'. split; [exact Hs|]. split; [exact Hdc | exact Hsent].
Defined.

(** X19. Without an open channel the text is lost: [handleSend] clears
    the input box although nothing is sent, nothing is logged and no
    diagnostic is set. *)
Theorem handleSend_without_open_channel_loses_text (e : Env)
  (text : jsstring) (h : Hook) :
  forallb is_js_space text = false ->
  match dc h with
  | Some ch => is_open ch = false
  | None => True
  end ->
  handleSend e text h = ([], Normal h).
Proof.
  intros Htext Hdc.
  unfold handleSend, sendText. rewrite truthy_trim, Htext. cbn [negb].
  destruct (dc h) as [ch|]; [rewrite Hdc|]; reflexivity.
Qed.

Lemma handleSend_without_open_channel_loses_text_witness :
  handleSend env0 (js "hello") initial = ([], Normal initial) /\
  handleSend env0 (js "hello") (state_of (createOffer host_ok initial))
  = ([], Normal (state_of (createOffer host_ok initial))).
Proof.
  split.
  - apply (handleSend_without_open_channel_loses_text env0 (js "hello") initial);
      [reflexivity | exact I].
  - apply (handleSend_without_open_channel_loses_text env0 (js "hello")
             (state_of (createOffer host_ok initial)));
      reflexivity.
Defined.

(** X20. [handleJoin] hands the pasted text to the hook untrimmed.  An
    offer padded with the white space of JSON (spaces, tabs, line breaks)
    is accepted and the session goes to Connecting; an offer followed by
    any other unit is rejected and the session fails, also when that unit
    is white space that [trim] would have removed (a no-break space). *)
Theorem handleJoin_takes_text_untrimmed (n : Negotiation)
  (offer answer : SessionDescription) (pre post : jsstring) (c : N)
  (h : Hook) :
  forallb is_ws pre = true -> forallb is_ws post = true ->
  is_ws c = false ->
  host_setRemoteDescription n (description_object offer) = true ->
  host_createAnswer n = Some answer ->
  host_setLocalDescription n = true ->
  (exists h',
     handleJoin n (pre ++ stringify (description_object offer) ++ post) h
     = Normal h' /\
     connectionState h' = connecting /\
     pc h' = Some {| localDescription := Some answer;
                     remoteDescription := Some (description_object offer) |}) /\
  (exists h',
     handleJoin n (stringify (description_object offer) ++ [c]) h = Normal h' /\
     connectionState h' = failed /\
     errorMessage h' = Some invalid_offer_message).
Proof.
  intros Hpre Hpost Hc Hremote Hanswer Hlocal. split.
  - unfold handleJoin. rewrite description_is_not_blank.
    unfold createAnswer, createAnswer_try.
    rewrite (parse_padded_description _ _ _ Hpre), (skip_ws_all _ Hpost).
    rewrite Hremote, Hanswer, Hlocal.
    destruct (pc h) as [p|] eqn:Hpc;
      (eexists; split; [reflexivity|]; split; [reflexivity|]);
      unfold set_localDescription, set_remoteDescription; cbn;
      rewrite ?Hpc; reflexivity.
  - change (stringify (description_object offer) ++ [c])
      with ([] ++ stringify (description_object offer) ++ [c]).
    unfold handleJoin.
    rewrite (description_is_not_blank offer [] [c]).
    unfold createAnswer, createAnswer_try.
    rewrite (parse_padded_description offer [] [c] eq_refl).
    cbn [skip_ws]. rewrite Hc.
    eexists. split; [reflexivity|]. split; reflexivity.
Qed.

Lemma handleJoin_takes_text_untrimmed_witness :
  (exists h',
     handleJoin host_ok
       ([32] ++ stringify (description_object
                             {| sd_type := js "offer"; sd_sdp := js "v=0" |})
             ++ [10]) initial = Normal h' /\
     connectionState h' = connecting) /\
  (exists h',
     handleJoin host_ok
       (stringify (description_object
                     {| sd_type := js "offer"; sd_sdp := js "v=0" |}) ++ [160])
       initial = Normal h' /\
     connectionState h' = failed).
Proof.
  destruct (handleJoin_takes_text_untrimmed host_ok
              {| sd_type := js "offer"; sd_sdp := js "v=0" |}
              {| sd_type := js "answer"; sd_sdp := js "v=0" |}
              [32] [10] 160 initial)
    as [(h1 & H1 & H1s & _) (h2 & H2 & H2s & _)]; try reflexivity.
  split; [exists h1 | exists h2]; split; assumption.
Defined.

(** X21. Once a peer has set its local description the app shows the
    spinner only.  The creator's offer text and the joiner's answer text
    reach the state when candidate gathering ends, but the session is
    Connecting by then, so the connection manager that displays them, and
    that takes the creator's answer, is not on screen. *)
Theorem description_text_is_hidden_while_connecting (nA nB : Negotiation)
  (offer answer : SessionDescription) (a b : Hook) :
  host_createOffer nA = Some offer -> sd_type offer = js "offer" ->
  host_setLocalDescription nA = true ->
  host_setRemoteDescription nB (description_object offer) = true ->
  host_createAnswer nB = Some answer -> sd_type answer = js "answer" ->
  host_setLocalDescription nB = true ->
  let pcA := {| localDescription := Some offer; remoteDescription := None |} in
  let pcB := {| localDescription := Some answer;
                remoteDescription := Some (description_object offer) |} in
  let a1 := run [call_createOffer nA] a in
  let a2 := run [ev_icecandidate pcA false] a1 in
  let b1 := run [call_createAnswer nB (stringify (description_object offer))] b in
  let b2 := run [ev_icecandidate pcB false] b1 in
  pc a1 = Some pcA /\
  offerSdp a2 = Some (stringify (description_object offer)) /\
  renderContent (connectionState a1) = show_spinner /\
  renderContent (connectionState a2) = show_spinner /\
  pc b1 = Some pcB /\
  answerSdp b2 = Some (stringify (description_object answer)) /\
  renderContent (connectionState b1) = show_spinner /\
  renderContent (connectionState b2) = show_spinner.
Proof.
  intros HofferA Htype_offer HlocalA HremoteB HanswerB Htype_answer HlocalB.
  cbn [run perform state_of].
  unfold createOffer, createAnswer, createAnswer_try, onicecandidate.
  rewrite HofferA, HlocalA, parse_stringify_description, HremoteB, HanswerB,
    HlocalB.
  cbn [localDescription]. rewrite Htype_offer, Htype_answer.
  change (jsstring_eqb (js "offer") (js "offer")) with true.
  change (jsstring_eqb (js "answer") (js "offer")) with false.
  cbv iota.
  destruct (pc b) as [p|] eqn:Hpc;
    unfold set_localDescription, set_remoteDescription;
    cbn -[stringify]; rewrite ?Hpc; cbn -[stringify];
    unfold description_object; rewrite ?Htype_offer, ?Htype_answer;
    repeat split; reflexivity.
Qed.

Lemma description_text_is_hidden_while_connecting_witness :
  let offer := {| sd_type := js "offer"; sd_sdp := js "v=0" |} in
  let pcA := {| localDescription := Some offer; remoteDescription := None |} in
  let a2 := run [call_createOffer host_ok; ev_icecandidate pcA false] initial in
  offerSdp a2 = Some (stringify (description_object offer)) /\
  renderContent (connectionState a2) = show_spinner.
Proof.
  destruct (description_text_is_hidden_while_connecting host_ok host_ok
              {| sd_type := js "offer"; sd_sdp := js "v=0" |}
              {| sd_type := js "answer"; sd_sdp := js "v=0" |}
              initial initial)
    as (_ & Hoffer & _ & Hview & _); try reflexivity.
  split; [exact Hoffer | exact Hview].
Defined.

End Components.
